(** * Mega Sena analyzer: statistical pipeline of [megasena.py]

    Shallow embedding of the analysis functions of [megasena.py]
    ([analyze_numbers], [analyze_outliers], [calculate_probabilities],
    [analyze_delays], [analyze_drawing_patterns], [suggest_numbers]) and the
    properties of the specification that concern them.

    Conventions.
    - Python [int] is [Z].  A [float64] is a value of a type [F] that
      implements the interface [Float]; [binary64] is IEEE 754 double
      precision (through [SpecFloat]) and [Q] is exact arithmetic.
    - A pandas [DataFrame] is a list of column labels and a list of rows; the
      analyzers that receive the caller's frame run in the monad [M], whose
      state is that frame, so that a write to it is visible.
    - A pandas [Series] is the list of its (label, value) pairs, in order.
    - Streamlit output ([st.warning]) and the [st.cache_data] memoisation are
      left out. *)

From Stdlib Require Import ZArith QArith Qround SpecFloat Lia.
From stdpp Require Import base list gmap strings sorting pretty.

Local Open Scope Z_scope.
Set Warnings "-clear-no-such-hyp".

(** ** Numbers *)

(** What the program uses of float64 arithmetic. [to_int x] is [int(x)]:
    truncation toward zero, [None] where Python raises (infinities, NaN). *)
Class Float (F : Type) := {
  of_int : Z -> F;
  to_int : F -> option Z;
  isnan : F -> bool;
  fadd : F -> F -> F;
  fsub : F -> F -> F;
  fmul : F -> F -> F;
  fdiv : F -> F -> F;
  flt : F -> F -> bool;
  feq : F -> F -> bool;
  fround : F -> Z -> F
}.

(** [np.sqrt], needed by [np.std] only. *)
Class FloatSqrt (F : Type) := { fsqrt : F -> F }.

Module Binary64.

Definition prec : Z := 53.
Definition emax : Z := 1024.

Definition b64_of_int (z : Z) : spec_float := binary_normalize prec emax z 0 false.

Definition b64_to_int (x : spec_float) : option Z :=
  match x with
  | S754_zero _ => Some 0
  | S754_infinity _ | S754_nan => None
  | S754_finite s m e =>
      let a := if 0 <=? e then Z.pos m * 2 ^ e else Z.pos m / 2 ^ (- e) in
      Some (if s then - a else a)
  end.

Definition b64_isnan (x : spec_float) : bool :=
  match x with S754_nan => true | _ => false end.

(** Nearest integer, ties to even ([np.rint]); [None] for infinities and NaN. *)
Definition b64_rint (x : spec_float) : option Z :=
  match x with
  | S754_zero _ => Some 0
  | S754_infinity _ | S754_nan => None
  | S754_finite s m e =>
      let a :=
        if 0 <=? e then Z.pos m * 2 ^ e
        else
          let d := 2 ^ (- e) in
          let q := Z.pos m / d in
          let r := Z.pos m mod d in
          match 2 * r ?= d with
          | Lt => q
          | Gt => q + 1
          | Eq => if Z.even q then q else q + 1
          end in
      Some (if s then - a else a)
  end.

(** [round(x, ndigits)] of a numpy float: scale by a power of ten, round
    to the nearest integer, scale back. *)
Definition b64_round (x : spec_float) (ndigits : Z) : spec_float :=
  let p := b64_of_int (10 ^ Z.abs ndigits) in
  let scaled := if 0 <=? ndigits then SFmul prec emax x p else SFdiv prec emax x p in
  match b64_rint scaled with
  | None => x
  | Some r =>
      if 0 <=? ndigits then SFdiv prec emax (b64_of_int r) p
      else SFmul prec emax (b64_of_int r) p
  end.

#[export] Instance binary64 : Float spec_float := {|
  of_int := b64_of_int;
  to_int := b64_to_int;
  isnan := b64_isnan;
  fadd := SFadd prec emax;
  fsub := SFsub prec emax;
  fmul := SFmul prec emax;
  fdiv := SFdiv prec emax;
  flt := SFltb;
  feq := SFeqb;
  fround := b64_round
|}.

#[export] Instance binary64_sqrt : FloatSqrt spec_float := {| fsqrt := SFsqrt prec emax |}.

End Binary64.

Module Exact.

Definition Q_to_int (q : Q) : option Z := Some (Z.quot (Qnum q) (Z.pos (Qden q))).

Definition Q_rint (q : Q) : Z :=
  let f := Qfloor q in
  match Qcompare (q - inject_Z f) (1 # 2) with
  | Lt => f
  | Gt => f + 1
  | Eq => if Z.even f then f else f + 1
  end.

Definition Q_round (q : Q) (ndigits : Z) : Q :=
  let p := inject_Z (10 ^ Z.abs ndigits) in
  if 0 <=? ndigits then Qdiv (inject_Z (Q_rint (Qmult q p))) p
  else Qmult (inject_Z (Q_rint (Qdiv q p))) p.

Definition Q_ltb (a b : Q) : bool := negb (Qle_bool b a).

#[export] Instance exactQ : Float Q := {|
  of_int := inject_Z;
  to_int := Q_to_int;
  isnan := fun _ => false;
  fadd := Qplus;
  fsub := Qminus;
  fmul := Qmult;
  fdiv := Qdiv;
  flt := Q_ltb;
  feq := Qeq_bool;
  fround := Q_round
|}.

End Exact.

Import Binary64 Exact.

(** Python's numeric values as the frame stores them. *)
Inductive number (F : Type) :=
| NInt (z : Z)
| NFloat (f : F).
Arguments NInt {F} z.
Arguments NFloat {F} f.

(** ** Exceptions and the frame monad *)

Inductive exn :=
| KeyError (key : string)
| TypeError
| ValueError
| OverflowError.

Inductive result (A : Type) :=
| Ok (a : A)
| Raise (e : exn).
Arguments Ok {A} a.
Arguments Raise {A} e.

Definition rbind {A B} (r : result A) (k : A -> result B) : result B :=
  match r with Ok a => k a | Raise e => Raise e end.

(** ** Cells, rows and frames *)

Inductive cell (F : Type) :=
| CInt (z : Z)            (* int (and bool, which Python counts as int) *)
| CFloat (f : F)          (* float, NaN included *)
| CStr (s : string)       (* str *)
| CDate (ordinal : Z)     (* Timestamp *)
| CNone.                  (* None *)
Arguments CInt {F} z.
Arguments CFloat {F} f.
Arguments CStr {F} s.
Arguments CDate {F} ordinal.
Arguments CNone {F}.

Definition Row (F : Type) := string -> cell F.

Record DataFrame (F : Type) := mkDF {
  columns : list string;
  rows : list (Row F)
}.
Arguments mkDF {F} columns rows.
Arguments columns {F} d.
Arguments rows {F} d.

(** [Series]: (label, value) pairs in order. *)
Definition Series (K V : Type) := list (K * V).

#[export] Instance result_ret : MRet result := @Ok.
#[export] Instance result_bind : MBind result := fun A B k r => rbind r k.

Section Frames.
Context {F : Type} `{Float F}.

(** The analyzers that take [data] run in [M]: they read, and may write,
    the frame the caller passed. *)
Definition M (A : Type) : Type := DataFrame F -> result A * DataFrame F.

#[export] Instance M_ret : MRet M := fun A a d => (Ok a, d).
#[export] Instance M_bind : MBind M := fun A B k m d =>
  match m d with
  | (Ok a, d') => k a d'
  | (Raise e, d') => (Raise e, d')
  end.

Definition lift {A} (r : result A) : M A := fun d => (r, d).

(** A computation that leaves the frame as it found it. *)
Definition reads {A} (m : M A) : Prop := forall d, snd (m d) = d.

(** [d.empty]: some axis has length 0. *)
Definition df_empty (d : DataFrame F) : bool :=
  match columns d, rows d with
  | [], _ | _, [] => true
  | _, _ => false
  end.

(** [d[name]]: the column, [KeyError] when there is none. *)
Definition df_getitem (d : DataFrame F) (name : string) : result (list (cell F)) :=
  if bool_decide (name ∈ columns d)
  then Ok (map (fun r => r name) (rows d))
  else Raise (KeyError name).

(** [d[mask]]: the rows where the boolean series holds. *)
Definition df_mask (d : DataFrame F) (mask : list bool) : DataFrame F :=
  mkDF (columns d) (map snd (List.filter fst (zip mask (rows d)))).

(** The same on the caller's frame [data]. *)
Definition data_columns : M (list string) := fun d => (Ok (columns d), d).
Definition data_empty : M bool := fun d => (Ok (df_empty d), d).
Definition getitem (name : string) : M (list (cell F)) := fun d => (df_getitem d name, d).
Definition data_mask (mask : list bool) : M (DataFrame F) := fun d => (Ok (df_mask d mask), d).

Definition set_cell (name : string) (v : cell F) (r : Row F) : Row F :=
  fun k => if String.eqb k name then v else r k.

(** [data[name] = values]: writes the caller's frame, adding the column
    when it is new. *)
Definition setitem (name : string) (values : list (cell F)) : M unit := fun d =>
  if bool_decide (length values = length (rows d))
  then (Ok tt,
        mkDF (if bool_decide (name ∈ columns d) then columns d else columns d ++ [name])
             (zip_with (set_cell name) values (rows d)))
  else (Raise ValueError, d).

(** [data.iterrows()] *)
Definition iterrows : M (list (Row F)) := fun d => (Ok (rows d), d).

(** *** Cells as Python values *)

(** [isinstance(n, (int, float))], with the number. *)
Definition as_number (c : cell F) : option (number F) :=
  match c with
  | CInt z => Some (NInt z)
  | CFloat f => Some (NFloat f)
  | _ => None
  end.

(** [int(x)] *)
Definition py_int (x : number F) : result Z :=
  match x with
  | NInt z => Ok z
  | NFloat f =>
      match to_int f with
      | Some z => Ok z
      | None => Raise (if isnan f then ValueError else OverflowError)
      end
  end.

(** [pd.isna] *)
Definition isna (c : cell F) : bool :=
  match c with
  | CNone => true
  | CFloat f => isnan f
  | _ => false
  end.

Definition dropna (s : list (cell F)) : list (cell F) :=
  List.filter (fun c => negb (isna c)) s.

End Frames.

(** ** Draw history *)

Record DrawRecord := mkDraw {
  drawId : Z;
  date : Z;
  numbers : list Z
}.

Definition valid_record (r : DrawRecord) : Prop :=
  length (numbers r) = 6%nat ∧ NoDup (numbers r) ∧ Forall (fun x => 1 ≤ x ≤ 60) (numbers r).

(** [f'Dezena{i}'] *)
Definition dezena (i : Z) : string := "Dezena" +:+ pretty i.

Definition history_columns : list string :=
  ["Concurso"; "Data"] ++ map dezena (seqZ 1 6).

Section History.
Context {F : Type}.

Definition row_of (r : DrawRecord) : Row F := fun name =>
  if String.eqb name "Concurso" then CInt (drawId r)
  else if String.eqb name "Data" then CDate (date r)
  else match list_find (String.eqb name) (map dezena (seqZ 1 6)) with
       | Some (i, _) => from_option CInt CNone (numbers r !! i)
       | None => CNone
       end.

(** The frame the history provider builds: one row per draw. *)
Definition to_frame (h : list DrawRecord) : DataFrame F :=
  mkDF history_columns (map row_of h).

End History.

(** ** Frequency Analyzer: [analyze_numbers] *)

(** Stable insertion sort; [before x y] says that [x] may stand before [y]. *)
Section Sort.
Context {A : Type} (before : A -> A -> bool).

Fixpoint insert_sorted (x : A) (l : list A) : list A :=
  match l with
  | [] => [x]
  | y :: l' => if before x y then x :: l else y :: insert_sorted x l'
  end.

Definition stable_sort (l : list A) : list A := foldr insert_sorted [] l.

End Sort.

Definition count_before (a b : Z * Z) : bool := snd b <=? snd a.

(** [sort_values(ascending=False)] on counts. pandas leaves the order of
    equal counts to its sorting routine; the model keeps them in their
    order of arrival. *)
Definition sort_values_desc (s : Series Z Z) : Series Z Z := stable_sort count_before s.

(** One more occurrence of [k] in a table of counts kept in order of first
    occurrence. *)
Fixpoint incr (k : Z) (t : Series Z Z) : Series Z Z :=
  match t with
  | [] => [(k, 1)]
  | (k', c) :: t' => if k =? k' then (k', c + 1) :: t' else (k', c) :: incr k t'
  end.

Definition count_table (l : list Z) : Series Z Z :=
  fold_left (fun t k => incr k t) l [].

(** [pd.Series(l).value_counts()] *)
Definition value_counts (l : list Z) : Series Z Z := sort_values_desc (count_table l).

(** [s.head(k)], [s.tail(k)], [s.index.tolist()], [s.values], [s.sum()] *)
Definition series_head {K V} (k : nat) (s : Series K V) : Series K V := take k s.
Definition series_tail {K V} (k : nat) (s : Series K V) : Series K V := drop (length s - k) s.
Definition series_index {K V} (s : Series K V) : list K := map fst s.
Definition series_values {K V} (s : Series K V) : list V := map snd s.
Definition series_sum (s : Series Z Z) : Z := foldr Z.add 0 (series_values s).

Section FrequencyAnalyzer.
Context {F : Type} `{Float F}.

(** [[int(n) for n in numbers if isinstance(n, (int, float)) and 1 <= int(n) <= 60]] *)
Fixpoint numeric_numbers_of (numbers : list (cell F)) : result (list Z) :=
  match numbers with
  | [] => Ok []
  | n :: rest =>
      match as_number n with
      | Some x =>
          k ← py_int x;
          if (1 <=? k) && (k <=? 60)
          then (tl ← numeric_numbers_of rest; Ok (k :: tl))
          else numeric_numbers_of rest
      | None => numeric_numbers_of rest
      end
  end.

(** The loop over [range(1, 7)] that collects the columns present. *)
Fixpoint collect_columns (range : list Z) (numbers : list (cell F)) : M (list (cell F)) :=
  match range with
  | [] => mret numbers
  | i :: range' =>
      cols ← data_columns;
      if bool_decide (dezena i ∈ cols)
      then (c ← getitem (dezena i); collect_columns range' (numbers ++ dropna c))
      else collect_columns range' numbers
  end.

Definition analyze_numbers : M (Series Z Z * list Z * list Z * list Z) :=
  numbers ← collect_columns (seqZ 1 6) [];
  numeric_numbers ← lift (numeric_numbers_of numbers);
  match numeric_numbers with
  | [] => mret ([], [], [], [])
  | _ =>
      let freq := sort_values_desc (value_counts numeric_numbers) in
      let most_common := series_index (series_head (Nat.min 4 (length freq)) freq) in
      let least_common := series_index (series_tail (Nat.min 2 (length freq)) freq) in
      mret (freq, most_common, least_common, numeric_numbers)
  end.

End FrequencyAnalyzer.

(** ** Numeric columns *)

Section NumericColumns.
Context {F : Type} `{Float F}.

(** int to float, as Python does when the operands are mixed. *)
Definition promote (x : number F) : F :=
  match x with NInt z => of_int z | NFloat f => f end.

Definition num_add (x y : number F) : number F :=
  match x, y with
  | NInt a, NInt b => NInt (a + b)
  | _, _ => NFloat (fadd (promote x) (promote y))
  end.

Definition num_sub (x y : number F) : number F :=
  match x, y with
  | NInt a, NInt b => NInt (a - b)
  | _, _ => NFloat (fsub (promote x) (promote y))
  end.

Definition num_lt (x y : number F) : bool :=
  match x, y with
  | NInt a, NInt b => a <? b
  | _, _ => flt (promote x) (promote y)
  end.

Definition cell_of_num (x : number F) : cell F :=
  match x with NInt z => CInt z | NFloat f => CFloat f end.

(** [series == num] on one cell; a cell that is not a number is unequal. *)
Definition cell_eq_int (num : Z) (c : cell F) : bool :=
  match c with
  | CInt z => z =? num
  | CFloat f => feq f (of_int num)
  | _ => false
  end.

(** The numbers of a column, missing values skipped; a cell that is
    neither is a [TypeError] for the reductions below (a column of text
    only, which pandas reduces as text, is not followed). *)
Fixpoint numbers_of (s : list (cell F)) : result (list (number F)) :=
  match s with
  | [] => Ok []
  | c :: s' =>
      if isna c then numbers_of s'
      else match as_number c with
           | Some x => (tl ← numbers_of s'; Ok (x :: tl))
           | None => Raise TypeError
           end
  end.

Definition num_max (x y : number F) : number F := if num_lt x y then y else x.

(** [s.max()]: [None] stands for the NaN that pandas returns when no value
    is left. *)
Definition series_max (s : list (cell F)) : result (option (number F)) :=
  xs ← numbers_of s;
  Ok (match xs with
      | [] => None
      | x :: xs' => Some (fold_left num_max xs' x)
      end).

(** [sum] of a float array, left to right. *)
Definition fsum (l : list F) : F := fold_left fadd l (of_int 0).

(** [np.mean] *)
Definition np_mean (l : list F) : F := fdiv (fsum l) (of_int (Z.of_nat (length l))).

(** [s.mean()] *)
Definition series_mean (s : list (cell F)) : result F :=
  xs ← numbers_of s;
  Ok (np_mean (map promote xs)).

(** [row.sum()] with [skipna]. *)
Definition row_sum (cells : list (cell F)) : result (cell F) :=
  xs ← numbers_of cells;
  Ok (cell_of_num (fold_left num_add xs (NInt 0))).

(** [x % 2 == 0] for a float: [x] is an even integer. *)
Definition float_even (f : F) : bool :=
  match to_int f with
  | Some z => feq (of_int z) f && Z.even z
  | None => false
  end.

(** [num % 2 == 0] on a cell of a row. [%] on a [str] is string
    formatting, which raises unless the text is a format with one
    directive; that case is not followed. *)
Definition cell_even (c : cell F) : result bool :=
  match c with
  | CInt z => Ok (Z.even z)
  | CFloat f => Ok (float_even f)
  | _ => Raise TypeError
  end.

End NumericColumns.

(** ** Outlier Detector: [analyze_outliers] *)

Record AnomalyReport (F : Type) := mkReport {
  standard_deviation : F;
  anomalies_dict : list (Z * F)
}.
Arguments mkReport {F} standard_deviation anomalies_dict.
Arguments standard_deviation {F} a.
Arguments anomalies_dict {F} a.

(** [od[k] = v] on an [OrderedDict]: a key keeps its place. *)
Fixpoint od_set {V : Type} (k : Z) (v : V) (od : list (Z * V)) : list (Z * V) :=
  match od with
  | [] => [(k, v)]
  | (k', v') :: od' => if k =? k' then (k', v) :: od' else (k', v') :: od_set k v od'
  end.

Section OutlierDetector.
Context {F : Type} `{Float F} `{FloatSqrt F}.

Definition np_zeros_like (data : list F) : list F := map (fun _ => of_int 0) data.

Definition np_ones (n : Z) : list F := replicate (Z.to_nat n) (of_int 1).

(** Term [t] of the full discrete convolution of [a] and [v]. *)
Definition convolve_at (a v : list F) (t : nat) : F :=
  fsum (omap (fun j =>
                if (j <=? t)%nat
                then x ← a !! j; y ← v !! (t - j)%nat; Some (fmul x y)
                else None)
             (seq 0 (length a))).

(** [np.convolve(a, v, 'same')]: the longer argument comes first, and the
    result is the middle of the full convolution, as long as it. *)
Definition np_convolve_same (a v : list F) : result (list F) :=
  match a, v with
  | [], _ | _, [] => Raise ValueError
  | _, _ =>
      let '(a, v) := if (length a <? length v)%nat then (v, a) else (a, v) in
      let off := ((length v - 1) / 2)%nat in
      Ok (map (fun i => convolve_at a v (i + off)) (seq 0 (length a)))
  end.

(** [a - b] on arrays, with numpy's broadcasting of a one-element array. *)
Definition np_sub (a b : list F) : result (list F) :=
  if bool_decide (length a = length b) then Ok (zip_with fsub a b)
  else match a, b with
       | [x], _ => Ok (map (fun y => fsub x y) b)
       | _, [y] => Ok (map (fun x => fsub x y) a)
       | _, _ => Raise ValueError
       end.

(** [np.std]: population standard deviation. *)
Definition np_std (l : list F) : F :=
  let m := np_mean l in
  fsqrt (np_mean (map (fun x => let d := fsub x m in fmul d d) l)).

Definition moving_average (data : list F) (window_size : Z) : result (list F) :=
  if window_size <=? 0 then Ok (np_zeros_like data)
  else
    let window := map (fun x => fdiv x (of_int window_size)) (np_ones window_size) in
    np_convolve_same data window.

(** The test of the loop body on one point. *)
Definition is_anomaly (sigma std y_i avg_i : F) : bool :=
  flt (fadd avg_i (fmul sigma std)) y_i || flt y_i (fsub avg_i (fmul sigma std)).

(** One turn of the loop over [enumerate(zip(y, avg))]. *)
Definition anomaly_step (frequencies : Series Z Z) (sigma std : F)
    (anomalies : list (Z * F)) (p : nat * (F * F)) : list (Z * F) :=
  let '(i, (y_i, avg_i)) := p in
  if is_anomaly sigma std y_i avg_i then
    if (i <? length (series_index frequencies))%nat then
      match series_index frequencies !! i with
      | Some label => od_set label y_i anomalies
      | None => anomalies
      end
    else anomalies
  else anomalies.

Definition explain_anomalies (frequencies : Series Z Z) (y : list F)
    (window_size : Z) (sigma : F) : result (AnomalyReport F) :=
  if Z.of_nat (length y) <? window_size then Ok (mkReport (of_int 0) [])
  else
    avg ← moving_average y window_size;
    residual ← np_sub y avg;
    let std := np_std residual in
    let anomalies :=
      fold_left (anomaly_step frequencies sigma std)
                (zip (seq 0 (length (zip y avg))) (zip y avg)) [] in
    Ok (mkReport (fround std 2) anomalies).

Definition default_window_size (frequencies : Series Z Z) : Z :=
  let len := Z.of_nat (length frequencies) in
  Z.min 10 (if 0 <? len then len / 2 else 1).

Definition sigma_value : F := fdiv (of_int 3) (of_int 2).

Definition analyze_outliers (frequencies : Series Z Z) : result (list Z * F) :=
  match frequencies with
  | [] => Ok ([], of_int 0)
  | _ =>
      let y := map of_int (series_values frequencies) in
      let window_size := default_window_size frequencies in
      events ← explain_anomalies frequencies y window_size sigma_value;
      let outliers := series_index (anomalies_dict events) in
      Ok (outliers, standard_deviation events)
  end.

End OutlierDetector.

(** ** Probability Calculator: [calculate_probabilities] *)

Section ProbabilityCalculator.
Context {F : Type} `{Float F}.

Definition value_before (a b : Z * F) : bool := negb (flt (snd a) (snd b)).

Definition calculate_probabilities (frequencies : Series Z Z) : Series Z F :=
  match frequencies with
  | [] => []
  | _ =>
      let total_draws_count := series_sum frequencies in
      if total_draws_count =? 0 then []
      else
        let probabilities :=
          map (fun '(k, c) =>
                 (k, fmul (fdiv (of_int c) (of_int total_draws_count)) (of_int 100)))
              frequencies in
        stable_sort value_before probabilities
  end.

End ProbabilityCalculator.

(** ** Delay Analyzer: [analyze_delays] *)

Section DelayAnalyzer.
Context {F : Type} `{Float F}.

(** [a - b] where either may be the NaN of an empty [max]. *)
Definition nan_sub (a b : option (number F)) : option (number F) :=
  match a, b with
  | Some x, Some y => Some (num_sub x y)
  | _, _ => None
  end.

(** [int(delay)]; NaN raises. *)
Definition int_of_delay (delay : option (number F)) : result Z :=
  match delay with
  | Some x => py_int x
  | None => Raise ValueError
  end.

(** [(data['Dezena1'] == num) | ... | (data['Dezena6'] == num)] *)
Definition occurrence_mask (num : Z) : M (list bool) :=
  d1 ← getitem "Dezena1";
  d2 ← getitem "Dezena2";
  d3 ← getitem "Dezena3";
  d4 ← getitem "Dezena4";
  d5 ← getitem "Dezena5";
  d6 ← getitem "Dezena6";
  let equals := map (cell_eq_int num) in
  let either := zip_with orb in
  mret (either (either (either (either (either (equals d1) (equals d2)) (equals d3))
                               (equals d4)) (equals d5)) (equals d6)).

(** The body of the loop over [selected_numbers]. *)
Definition delay_of (last_concurso : option (number F)) (delays : gmap Z Z) (num : Z)
    : M (gmap Z Z) :=
  mask ← occurrence_mask num;
  num_occurrences ← data_mask mask;
  if negb (df_empty num_occurrences) then
    concurso ← lift (df_getitem num_occurrences "Concurso");
    last_appearance_concurso ← lift (series_max concurso);
    let delay := nan_sub last_concurso last_appearance_concurso in
    k ← lift (int_of_delay delay);
    mret (<[num := k]> delays)
  else mret (<[num := -1]> delays).

Fixpoint delays_loop (selected_numbers : list Z) (last_concurso : option (number F))
    (delays : gmap Z Z) : M (gmap Z Z) :=
  match selected_numbers with
  | [] => mret delays
  | num :: rest =>
      delays' ← delay_of last_concurso delays num;
      delays_loop rest last_concurso delays'
  end.

Definition analyze_delays (selected_numbers : list Z) : M (gmap Z Z) :=
  no_data ← data_empty;
  if no_data || bool_decide (selected_numbers = []) then mret ∅
  else
    concurso ← getitem "Concurso";
    last_concurso ← lift (series_max concurso);
    delays_loop selected_numbers last_concurso ∅.

End DelayAnalyzer.

(** ** Pattern Analyzer: [analyze_drawing_patterns] *)

(** [collections.Counter] over a list of pairs, in order of first occurrence. *)
Fixpoint counter_add (k : Z * Z) (t : list (Z * Z * Z)) : list (Z * Z * Z) :=
  match t with
  | [] => [(k, 1)]
  | (k', c) :: t' =>
      if bool_decide (k = k') then (k', c + 1) :: t' else (k', c) :: counter_add k t'
  end.

Definition Counter (l : list (Z * Z)) : list (Z * Z * Z) :=
  fold_left (fun t k => counter_add k t) l [].

(** [f'{k[0]} Pares / {k[1]} Ímpares'] *)
Definition parity_label (k : Z * Z) : string :=
  pretty (fst k) +:+ " Pares / " +:+ pretty (snd k) +:+ " Ímpares".

Section PatternAnalyzer.
Context {F : Type} `{Float F}.

(** [data[names]] for a list of labels: the rows, cut down to these
    columns; [KeyError] when one is missing. *)
Definition getitems (names : list string) : M (list (list (cell F))) := fun d =>
  match List.find (fun name => negb (bool_decide (name ∈ columns d))) names with
  | Some name => (Raise (KeyError name), d)
  | None => (Ok (map (fun r => map r names) (rows d)), d)
  end.

Fixpoint mapR {A B} (f : A -> result B) (l : list A) : result (list B) :=
  match l with
  | [] => Ok []
  | x :: l' => y ← f x; ys ← mapR f l'; Ok (y :: ys)
  end.

(** [sum(1 for num in dezenas if num % 2 == 0)] *)
Definition even_count_of (dezenas : list (cell F)) : result Z :=
  flags ← mapR cell_even dezenas;
  Ok (Z.of_nat (length (List.filter id flags))).

(** The loop over [data.iterrows()]. *)
Fixpoint parity_loop (rs : list (Row F)) (even_counts odd_counts : list Z)
    : result (list Z * list Z) :=
  match rs with
  | [] => Ok (even_counts, odd_counts)
  | row :: rs' =>
      let dezenas := map (fun i => row (dezena i)) (seqZ 1 6) in
      even_count ← even_count_of dezenas;
      let odd_count := 6 - even_count in
      parity_loop rs' (even_counts ++ [even_count]) (odd_counts ++ [odd_count])
  end.

Definition analyze_drawing_patterns : M (gmap string F * gmap string Z) :=
  no_data ← data_empty;
  if no_data : bool then mret ((∅ : gmap string F), (∅ : gmap string Z))
  else
    dezenas ← getitems (map dezena (seqZ 1 6));
    soma ← lift (mapR row_sum dezenas);
    setitem "SomaDezenas" soma;;
    soma_dezenas ← getitem "SomaDezenas";
    avg_sum ← lift (series_mean soma_dezenas);
    rs ← iterrows;
    '(even_counts, odd_counts) ← lift (parity_loop rs [] []);
    let even_odd_distribution := Counter (zip even_counts odd_counts) in
    let even_odd_distribution : gmap string Z :=
      list_to_map (map (fun '(k, v) => (parity_label k, v)) even_odd_distribution) in
    mret ({["average_sum" := fround avg_sum 2]}, even_odd_distribution).

End PatternAnalyzer.

(** ** Suggestion Engine: [suggest_numbers] *)

(** The random source: the raw draws still to come. *)
Definition Rng := list nat.

(** A number below [n], from the next draw. *)
Definition randbelow (n : nat) (g : Rng) : nat * Rng :=
  match g with
  | [] => (0%nat, [])
  | r :: g' => ((r mod n)%nat, g')
  end.

Definition swap (x : list Z) (i j : nat) : list Z :=
  match x !! i, x !! j with
  | Some a, Some b => <[i := b]> (<[j := a]> x)
  | _, _ => x
  end.

(** [random.shuffle]: for [i] from the last index down to 1, exchange
    [x[i]] with [x[j]], [j] drawn below [i + 1]. *)
Fixpoint shuffle_from (i : nat) (x : list Z) (g : Rng) : list Z * Rng :=
  match i with
  | O => (x, g)
  | S i' =>
      let '(j, g') := randbelow (S i) g in
      shuffle_from i' (swap x i j) g'
  end.

Definition shuffle (x : list Z) (g : Rng) : list Z * Rng :=
  shuffle_from (length x - 1) x g.

(** [random.sample], CPython's selection from a pool of [n] candidates:
    take [pool[j]], [j] drawn below [n], and move the last candidate to its
    place.  (For a small sample of a large population CPython instead
    redraws [j] until it is new; that variant is not followed.) *)
Fixpoint sample_pool (pool : list Z) (n k : nat) (g : Rng) : list Z * Rng :=
  match k with
  | O => ([], g)
  | S k' =>
      let '(j, g') := randbelow n g in
      let picked := default 0 (pool !! j) in
      let pool' := <[j := default 0 (pool !! (n - 1)%nat)]> pool in
      let '(result, g'') := sample_pool pool' (n - 1) k' g' in
      (picked :: result, g'')
  end.

Definition sample (population : list Z) (k : Z) (g : Rng) : result (list Z) * Rng :=
  if (k <? 0) || (Z.of_nat (length population) <? k) then (Raise ValueError, g)
  else
    let '(result, g') := sample_pool population (length population) (Z.to_nat k) g in
    (Ok result, g').

(** [sorted] on integers. *)
Definition sorted (l : list Z) : list Z := stable_sort Z.leb l.

(** [len] of a set. *)
Definition len (s : gset Z) : Z := Z.of_nat (size s).

(** The loop over [most_common]. *)
Fixpoint add_most_common (most_common : list Z) (num_to_suggest : Z)
    (suggested_set : gset Z) : gset Z :=
  match most_common with
  | [] => suggested_set
  | num :: rest =>
      if len suggested_set <? num_to_suggest
      then add_most_common rest num_to_suggest ({[num]} ∪ suggested_set)
      else suggested_set
  end.

(** The loop over [least_common]. *)
Fixpoint add_least_common (least_common : list Z) (num_to_suggest : Z)
    (suggested_set : gset Z) : gset Z :=
  match least_common with
  | [] => suggested_set
  | num :: rest =>
      if (len suggested_set <? num_to_suggest) && negb (bool_decide (num ∈ suggested_set))
      then add_least_common rest num_to_suggest ({[num]} ∪ suggested_set)
      else suggested_set
  end.

(** The [while] loop that pops [available_numbers]. *)
Fixpoint fill_random (available_numbers : list Z) (num_to_suggest : Z)
    (suggested_set : gset Z) : gset Z :=
  match available_numbers with
  | [] => suggested_set
  | num :: rest =>
      if len suggested_set <? num_to_suggest
      then fill_random rest num_to_suggest ({[num]} ∪ suggested_set)
      else suggested_set
  end.

Definition all_possible_numbers : gset Z := list_to_set (seqZ 1 60).

Definition suggest_numbers (most_common least_common : list Z) (num_to_suggest : Z)
    (g : Rng) : result (list Z) * Rng :=
  let suggested_set := add_most_common most_common num_to_suggest ∅ in
  let suggested_set := add_least_common least_common num_to_suggest suggested_set in
  let '(available_numbers, g) := shuffle (elements (all_possible_numbers ∖ suggested_set)) g in
  let suggested_set := fill_random available_numbers num_to_suggest suggested_set in
  let final_suggestion := sorted (elements suggested_set) in
  if num_to_suggest <? Z.of_nat (length final_suggestion) then
    let '(r, g) := sample final_suggestion num_to_suggest g in
    (final_suggestion ← r; Ok (sorted final_suggestion), g)
  else if Z.of_nat (length final_suggestion) <? num_to_suggest then
    let remaining_needed := num_to_suggest - Z.of_nat (length final_suggestion) in
    let '(remaining_available, g) :=
      shuffle (elements (all_possible_numbers ∖ suggested_set)) g in
    let '(r, g) :=
      sample remaining_available
             (Z.min remaining_needed (Z.of_nat (length remaining_available))) g in
    (extra ← r; Ok (sorted (final_suggestion ++ extra)), g)
  else (Ok final_suggestion, g).

(** ** Frequency chart: [plot_frequencies], up to the drawing *)

(** [freqs.get(num)] *)
Definition series_get {V} (s : Series Z V) (k : Z) : option V :=
  snd <$> List.find (fun p => fst p =? k) s.

(** [full_range_freq.update(frequencies)] from [pd.Series(0, index=range(1, 61))],
    then [sort_index()]: the heights of the sixty bars.  [update] aligns
    [frequencies] on the labels 1..60, which pandas refuses when a label of
    [frequencies] is repeated. *)
Definition full_range_freq (frequencies : Series Z Z) : result (Series Z Z) :=
  if bool_decide (NoDup (series_index frequencies))
  then Ok (map (fun k => (k, default 0 (series_get frequencies k))) (seqZ 1 60))
  else Raise ValueError.

(** The bars [plot_frequencies] hands to [ax.bar]; [None] when it returns
    early on an empty table. *)
Definition plot_frequencies (frequencies : Series Z Z) : result (option (Series Z Z)) :=
  match frequencies with
  | [] => Ok None
  | _ => full_range_freq_sorted_by_num ← full_range_freq frequencies;
         Ok (Some full_range_freq_sorted_by_num)
  end.

(** ** Price table *)

Section Prices.
Context {F : Type} `{Float F}.

Definition MEGA_SENA_PRICES : gmap Z F :=
  list_to_map
    [(6, of_int 5); (7, of_int 35); (8, of_int 140); (9, of_int 420);
     (10, of_int 1050); (11, of_int 2310); (12, of_int 4620); (13, of_int 8580);
     (14, of_int 15015); (15, of_int 25025); (16, of_int 40040); (17, of_int 61880);
     (18, of_int 92820); (19, of_int 135660); (20, of_int 193800)].

(** [MEGA_SENA_PRICES.get(num_dezenas_to_play, "N/A")], [None] for ["N/A"]. *)
Definition selected_price (num_dezenas_to_play : Z) : option F :=
  MEGA_SENA_PRICES !! num_dezenas_to_play.

End Prices.

(** ** The analysis and the first suggestion, as [main] chains them *)

Section Main.
Context {F : Type} `{Float F}.

(** What [main] does with the data after a successful fetch: the frequency
    analysis, then a suggestion from its hot and cold numbers. *)
Definition analyze_and_suggest (num_dezenas_to_play : Z) (g : Rng)
    : M (Series Z Z * list Z * list Z * list Z * Rng) :=
  '(freqs, most_common, least_common, all_numbers_flat) ← analyze_numbers;
  let '(r, g) := suggest_numbers most_common least_common num_dezenas_to_play g in
  suggested_game ← lift r;
  mret (freqs, most_common, least_common, suggested_game, g).

(** The delay section of [main]: the delays of the hot and cold numbers,
    [None] when there is none to look up. *)
Definition delays_of_selected (most_common least_common : list Z) : M (option (gmap Z Z)) :=
  let all_selected_for_delay := [] in
  let all_selected_for_delay :=
    match most_common with [] => all_selected_for_delay
                         | _ => all_selected_for_delay ++ most_common end in
  let all_selected_for_delay :=
    match least_common with [] => all_selected_for_delay
                          | _ => all_selected_for_delay ++ least_common end in
  match all_selected_for_delay with
  | [] => mret None
  | _ => delays ← analyze_delays all_selected_for_delay; mret (Some delays)
  end.

End Main.

(** * Vocabulary of the specification *)

(** ** Draw history *)

(** The numbers of a valid history, column after column. *)
Definition nth_number (j : nat) (r : DrawRecord) : Z := default 0 (numbers r !! j).

Definition drawn_numbers (h : list DrawRecord) : list Z :=
  concat (map (fun j => map (nth_number j) h) (seq 0 6)).

(** The draws that contain [n], and the largest draw number of a history. *)
Definition contains (n : Z) (r : DrawRecord) : bool := bool_decide (n ∈ numbers r).

Definition containing (n : Z) (h : list DrawRecord) : list DrawRecord :=
  List.filter (contains n) h.

Definition maxDrawId (h : list DrawRecord) : Z :=
  match map drawId h with
  | [] => 0
  | x :: l => fold_left Z.max l x
  end.

(** The delay the specification assigns to [n]. *)
Definition expected_delay (n : Z) (h : list DrawRecord) : Z :=
  match containing n h with
  | [] => -1
  | _ => maxDrawId h - maxDrawId (containing n h)
  end.

Definition expected_delays (h : list DrawRecord) (selected : list Z) (delays : gmap Z Z)
    : gmap Z Z :=
  fold_left (fun m n => <[n := expected_delay n h]> m) selected delays.

(** ** Frequency table *)

Section FrequencyVocabulary.
Context {F : Type} `{Float F}.

(** The raw cells of the [Dezena] columns that the frame has. *)
Definition dezena_entries (d : DataFrame F) : list (cell F) :=
  concat (map (fun i => if bool_decide (dezena i ∈ columns d)
                        then map (fun r => r (dezena i)) (rows d)
                        else []) (seqZ 1 6)).

(** An entry on which [int] does not raise: anything but an infinite float. *)
Definition finite_entry (c : cell F) : bool :=
  match c with
  | CFloat f => isnan f || bool_decide (is_Some (to_int f))
  | _ => true
  end.

(** What the comprehension keeps of an entry: the integer part of a number
    that is present, when that integer part is in [1,60]. *)
Definition counted_value (c : cell F) : option Z :=
  if isna c then None
  else match c with
       | CInt z => if (1 <=? z) && (z <=? 60) then Some z else None
       | CFloat f =>
           match to_int f with
           | Some z => if (1 <=? z) && (z <=? 60) then Some z else None
           | None => None
           end
       | _ => None
       end.

(** The specification's reading: an entry can count only when it is a
    number that lies in [1,60]; every other entry is left out, so the
    counts add up to no more than the number of such entries. *)
Definition lies_in_range (c : cell F) : bool :=
  match c with
  | CInt z => (1 <=? z) && (z <=? 60)
  | CFloat f => negb (isnan f) && negb (flt f (of_int 1)) && negb (flt (of_int 60) f)
  | _ => false
  end.

Definition excludes_out_of_range (d : DataFrame F) : Prop :=
  exists freq most_common least_common numeric_numbers,
    analyze_numbers d = (Ok (freq, most_common, least_common, numeric_numbers), d) ∧
    series_sum freq ≤ Z.of_nat (length (List.filter lies_in_range (dezena_entries d))).

End FrequencyVocabulary.

(** A frame whose only entry is the float 60.5. *)
Definition frame_60_5 : DataFrame spec_float :=
  mkDF ["Dezena1"] [fun _ => CFloat (fdiv (of_int 121) (of_int 2))].

(** ** Anomalies *)

Section AnomalyVocabulary.
Context {F : Type} `{Float F}.

(** The points that pass the test, with their labels, in the order of the
    frequency table. *)
Definition flagged (labels : list Z) (sigma std : F) (points : list (F * F)) : list (Z * F) :=
  map (fun '(label, (y_i, _)) => (label, y_i))
      (List.filter
         (fun '(_, (y_i, avg_i)) =>
            flt (fadd avg_i (fmul sigma std)) y_i || flt y_i (fsub avg_i (fmul sigma std)))
         (zip labels points)).

(** The window of a centered moving average at position [i]: [w]
    consecutive entries of [y], of which [(w - 1) / 2] come after position
    [i], cut off at the two ends of [y]. *)
Definition centered_window (y : list F) (w i : nat) : list F :=
  let stop := (i + (w - 1) / 2 + 1)%nat in
  drop (stop - w) (take stop y).

(** The centered moving average: at each position the entries in the
    window, each weighted [1 / w], added up. *)
Definition centered_average (y : list F) (w : Z) : list F :=
  map (fun i =>
         fsum (map (fun x => fmul x (fdiv (of_int 1) (of_int w)))
                   (centered_window y (Z.to_nat w) i)))
      (seq 0 (length y)).

End AnomalyVocabulary.

(** ** Percentages, in exact arithmetic *)

Definition Qsum (l : list Q) : Q := fold_right Qplus 0%Q l.

(** The percentage the program computes for a count. *)
Definition percentage (total : Z) (p : Z * Z) : Z * Q :=
  (fst p, (inject_Z (snd p) / inject_Z total * inject_Z 100)%Q).

(** ** Suggested set *)

(** A set inside the pool and within the requested size; both selection
    loops keep it so. *)
Definition within (n : Z) (s : gset Z) : Prop :=
  s ⊆ all_possible_numbers ∧ len s ≤ n.

(** ** Frames that differ in one column *)

(** [d] and [d'] have the same columns, [name] apart, and the same rows but
    for what they hold under [name]. *)
Definition same_but {F} (name : string) (d d' : DataFrame F) : Prop :=
  (forall c, c ≠ name -> c ∈ columns d ↔ c ∈ columns d') ∧
  (columns d = [] ↔ columns d' = []) ∧
  Forall2 (fun r r' : Row F => forall c, c ≠ name -> r c = r' c) (rows d) (rows d').

(** ** Counts and sums *)

(** [freqs.get(k, 0)] *)
Definition tally (s : Series Z Z) (k : Z) : Z := default 0 (series_get s k).

(** The sum of the numbers of a draw, how many of them are even, and how
    many draws of a history have [e] even numbers. *)
Definition draw_sum (r : DrawRecord) : Z := foldr Z.add 0 (numbers r).

Definition even_count (r : DrawRecord) : Z :=
  Z.of_nat (length (List.filter Z.even (numbers r))).

Definition draws_with_evens (e : Z) (h : list DrawRecord) : Z :=
  Z.of_nat (length (List.filter (fun r => even_count r =? e) h)).

(** The price table holds multiples of the number of six-number games a
    ticket of [k] numbers covers. *)

Definition binomial_6 (k : Z) : Z :=
  k * (k - 1) * (k - 2) * (k - 3) * (k - 4) * (k - 5) / 720.

(** * Properties *)

(** Case analysis on the condition of the first conditional of the goal. *)
Ltac case_if :=
  match goal with
  | |- context [if ?b then _ else _] => destruct b eqn:?
  end.

(** ** Sorting *)

Section SortFacts.
Context {A : Type} (before : A -> A -> bool).

Lemma insert_sorted_perm (x : A) (l : list A) :
  insert_sorted before x l ≡ₚ x :: l.
Proof.
  induction l as [|y l IH]; simpl; [done|].
  destruct (before x y); [done|].
  rewrite IH. apply Permutation_swap.
Qed.

Lemma stable_sort_perm (l : list A) : stable_sort before l ≡ₚ l.
Proof.
  induction l as [|x l IH]; simpl; [done|].
  rewrite insert_sorted_perm. by rewrite IH.
Qed.

Lemma stable_sort_length (l : list A) : length (stable_sort before l) = length l.
Proof. apply Permutation_length, stable_sort_perm. Qed.

Hypothesis before_total : forall x y, before x y = false -> before y x = true.

Lemma insert_sorted_HdRel (a x : A) (l : list A) :
  before a x = true ->
  HdRel (fun u v => before u v = true) a l ->
  HdRel (fun u v => before u v = true) a (insert_sorted before x l).
Proof.
  intros Hax Hl. destruct l as [|y l]; simpl; [by constructor|].
  destruct (before x y); constructor; [done|].
  by inversion Hl.
Qed.

Lemma insert_sorted_Sorted (x : A) (l : list A) :
  Sorted (fun u v => before u v = true) l ->
  Sorted (fun u v => before u v = true) (insert_sorted before x l).
Proof.
  induction 1 as [|y l Hs IH Hhd]; simpl.
  - repeat constructor.
  - destruct (before x y) eqn:E.
    + constructor; [by constructor|by constructor].
    + constructor; [done|]. apply insert_sorted_HdRel; auto.
Qed.

Lemma stable_sort_Sorted (l : list A) :
  Sorted (fun u v => before u v = true) (stable_sort before l).
Proof.
  induction l as [|x l IH]; simpl; [constructor|].
  by apply insert_sorted_Sorted.
Qed.

End SortFacts.

Lemma Sorted_mono {A} (R R' : A -> A -> Prop) (l : list A) :
  (forall x y, R x y -> R' x y) -> Sorted R l -> Sorted R' l.
Proof.
  intros HR. induction 1 as [|x l Hs IH Hhd]; constructor; [done|].
  destruct Hhd; constructor; auto.
Qed.

Lemma sorted_perm (l : list Z) : sorted l ≡ₚ l.
Proof. apply stable_sort_perm. Qed.

Lemma sorted_Sorted (l : list Z) : Sorted Z.le (sorted l).
Proof.
  unfold sorted.
  eapply Sorted_mono; [|apply stable_sort_Sorted].
  - intros x y Hxy. by apply Z.leb_le.
  - intros x y Hxy. apply Z.leb_le. apply Z.leb_gt in Hxy. lia.
Qed.

(** ** Suggestion Engine *)

Lemma swap_perm (x : list Z) (i j : nat) : swap x i j ≡ₚ x.
Proof.
  unfold swap.
  destruct (x !! i) as [a|] eqn:Hi; [|done].
  destruct (x !! j) as [b|] eqn:Hj; [|done].
  by apply Permutation_insert_swap.
Qed.

Lemma shuffle_from_perm (i : nat) (x : list Z) (g : Rng) :
  (shuffle_from i x g).1 ≡ₚ x.
Proof.
  revert x g. induction i as [|i IH]; intros x g; simpl; [done|].
  destruct (randbelow (S (S i)) g) as [j g'].
  etrans; [apply IH|apply swap_perm].
Qed.

Lemma shuffle_perm (x : list Z) (g : Rng) : (shuffle x g).1 ≡ₚ x.
Proof. apply shuffle_from_perm. Qed.

Lemma shuffle_nil (g : Rng) : shuffle [] g = ([], g).
Proof. reflexivity. Qed.

Lemma elem_of_all_possible_numbers (x : Z) :
  x ∈ all_possible_numbers ↔ 1 ≤ x ≤ 60.
Proof.
  unfold all_possible_numbers. rewrite elem_of_list_to_set, elem_of_seqZ. lia.
Qed.

Lemma size_all_possible_numbers : size all_possible_numbers = 60%nat.
Proof.
  unfold all_possible_numbers.
  rewrite size_list_to_set by apply NoDup_seqZ.
  by rewrite length_seqZ.
Qed.

Lemma len_insert_new (x : Z) (s : gset Z) : x ∉ s -> len ({[x]} ∪ s) = len s + 1.
Proof.
  intros Hx. unfold len. rewrite size_union by set_solver.
  rewrite size_singleton. lia.
Qed.

Lemma len_insert_le (x : Z) (s : gset Z) : len ({[x]} ∪ s) ≤ len s + 1.
Proof.
  destruct (decide (x ∈ s)) as [Hx|Hx].
  - replace ({[x]} ∪ s) with s by set_solver. lia.
  - rewrite len_insert_new by done. lia.
Qed.

Lemma add_most_common_within (most_common : list Z) (n : Z) (s : gset Z) :
  Forall (fun x => 1 ≤ x ≤ 60) most_common ->
  within n s -> within n (add_most_common most_common n s).
Proof.
  intros Hmc. revert s. induction Hmc as [|x l Hx Hl IH]; intros s [Hs Hn]; simpl.
  - done.
  - destruct (len s <? n) eqn:E; [|done].
    apply Z.ltb_lt in E. apply IH. split.
    + apply elem_of_all_possible_numbers in Hx. set_solver.
    + pose proof (len_insert_le x s). lia.
Qed.

Lemma add_least_common_within (least_common : list Z) (n : Z) (s : gset Z) :
  Forall (fun x => 1 ≤ x ≤ 60) least_common ->
  within n s -> within n (add_least_common least_common n s).
Proof.
  intros Hlc. revert s. induction Hlc as [|x l Hx Hl IH]; intros s [Hs Hn]; simpl.
  - done.
  - destruct ((len s <? n) && negb (bool_decide (x ∈ s))) eqn:E; [|done].
    apply andb_true_iff in E as [E _]. apply Z.ltb_lt in E. apply IH. split.
    + apply elem_of_all_possible_numbers in Hx. set_solver.
    + pose proof (len_insert_le x s). lia.
Qed.

Lemma fill_random_subseteq (available : list Z) (n : Z) (s : gset Z) :
  fill_random available n s ⊆ s ∪ list_to_set available.
Proof.
  revert s. induction available as [|x l IH]; intros s; simpl; [set_solver|].
  destruct (len s <? n); [|set_solver].
  etrans; [apply IH|]. set_solver.
Qed.

Lemma fill_random_len (available : list Z) (n : Z) (s : gset Z) :
  NoDup available ->
  (forall x, x ∈ available -> x ∉ s) ->
  len s ≤ n ->
  len (fill_random available n s) = Z.min n (len s + Z.of_nat (length available)).
Proof.
  intros Hnd. revert s. induction Hnd as [|x l Hx Hnd IH]; intros s Hdisj Hn; simpl.
  - lia.
  - destruct (len s <? n) eqn:E.
    + apply Z.ltb_lt in E.
      assert (x ∉ s) as Hxs by (apply Hdisj; left).
      rewrite IH.
      * rewrite len_insert_new by done. lia.
      * intros y Hy. assert (y ∉ s) by (apply Hdisj; by right).
        assert (y ≠ x) by (intros ->; done). set_solver.
      * rewrite len_insert_new by done. lia.
    + apply Z.ltb_ge in E. lia.
Qed.

Lemma available_length (s : gset Z) :
  s ⊆ all_possible_numbers ->
  Z.of_nat (length (elements (all_possible_numbers ∖ s))) = 60 - len s.
Proof.
  intros Hs. change (Z.of_nat (size (all_possible_numbers ∖ s)) = 60 - len s).
  rewrite size_difference by done.
  rewrite size_all_possible_numbers. unfold len.
  assert (size s ≤ 60)%nat; [|lia].
  rewrite <- size_all_possible_numbers. by apply subseteq_size.
Qed.

Lemma sample_nil_zero (g : Rng) : sample [] 0 g = (Ok [], g).
Proof. reflexivity. Qed.

(** What [sorted(list(s))] is for a set inside the pool. *)
Lemma sorted_elements_spec (s : gset Z) :
  s ⊆ all_possible_numbers ->
  let l := sorted (elements s) in
  Z.of_nat (length l) = len s ∧ NoDup l ∧ Sorted Z.le l ∧ Forall (fun x => 1 ≤ x ≤ 60) l.
Proof.
  intros Hs l. subst l. pose proof (sorted_perm (elements s)) as Hp.
  repeat split.
  - by rewrite Hp.
  - rewrite Hp. apply NoDup_elements.
  - apply sorted_Sorted.
  - apply Forall_forall. intros x Hx. rewrite Hp in Hx.
    apply elem_of_all_possible_numbers, Hs. by apply elem_of_elements.
Qed.

(** C1. With [most_common] and [least_common] in [1,60] and
    [6 <= num_to_suggest], [suggest_numbers] returns, whatever the random
    source, a list of distinct integers of [1,60] in ascending order; it
    has exactly [num_to_suggest] elements when [num_to_suggest <= 60], and
    only the 60 of the pool, fewer than requested, beyond.  (That the two
    input lists have no repetition is not needed.) *)
Theorem suggest_numbers_spec (most_common least_common : list Z) (n : Z) (g : Rng) :
  Forall (fun x => 1 ≤ x ≤ 60) most_common ->
  Forall (fun x => 1 ≤ x ≤ 60) least_common ->
  6 ≤ n ->
  exists l g',
    suggest_numbers most_common least_common n g = (Ok l, g') ∧
    NoDup l ∧ Sorted Z.le l ∧ Forall (fun x => 1 ≤ x ≤ 60) l ∧
    (n ≤ 60 -> Z.of_nat (length l) = n) ∧
    (60 < n -> Z.of_nat (length l) = 60 ∧ Z.of_nat (length l) < n).
Proof.
  intros Hmc Hlc Hn. unfold suggest_numbers.
  set (s2 := add_least_common least_common n (add_most_common most_common n ∅)).
  assert (within n s2) as [Hs2 Hlen2].
  { apply add_least_common_within, add_most_common_within; try done.
    split; [set_solver|]. unfold len. rewrite size_empty. lia. }
  pose proof (shuffle_perm (elements (all_possible_numbers ∖ s2)) g) as Hperm.
  destruct (shuffle (elements (all_possible_numbers ∖ s2)) g) as [available g1].
  simpl in Hperm.
  set (s3 := fill_random available n s2).
  assert (s3 ⊆ all_possible_numbers) as Hs3.
  { etrans; [apply fill_random_subseteq|].
    intros x [Hx|Hx]%elem_of_union; [by apply Hs2|].
    apply elem_of_list_to_set in Hx. rewrite Hperm in Hx.
    apply elem_of_elements in Hx. set_solver. }
  assert (len s3 = Z.min n 60) as Hlen3.
  { unfold s3. rewrite fill_random_len.
    - rewrite Hperm, available_length by done. f_equal. lia.
    - rewrite Hperm. apply NoDup_elements.
    - intros x Hx. rewrite Hperm in Hx. apply elem_of_elements in Hx. set_solver.
    - done. }
  destruct (sorted_elements_spec s3 Hs3) as (Hlen & Hnd & Hsorted & Hrange).
  destruct (Z_le_gt_dec n 60) as [Hle|Hgt].
  - rewrite Z.min_l in Hlen3 by done.
    rewrite Hlen, Hlen3, !Z.ltb_irrefl.
    eexists _, _. repeat split; try done; try lia.
  - rewrite Z.min_r in Hlen3 by lia.
    rewrite Hlen, Hlen3.
    replace (n <? 60) with false by (symmetry; apply Z.ltb_ge; lia).
    replace (60 <? n) with true by (symmetry; apply Z.ltb_lt; lia).
    assert (elements (all_possible_numbers ∖ s3) = []) as ->.
    { apply length_zero_iff_nil.
      pose proof (available_length s3 Hs3). lia. }
    rewrite shuffle_nil. simpl length.
    replace (Z.min (n - 60) (Z.of_nat 0)) with 0 by lia.
    rewrite sample_nil_zero. simpl. rewrite app_nil_r.
    pose proof (sorted_perm (sorted (elements s3))) as Hp.
    eexists _, _. split; [reflexivity|]. repeat split.
    + by rewrite Hp.
    + apply sorted_Sorted.
    + apply Forall_forall. intros x Hx. rewrite Hp in Hx.
      by eapply Forall_forall in Hrange.
    + lia.
    + rewrite Hp. lia.
    + rewrite Hp. lia.
Qed.

Lemma suggest_numbers_spec_witness :
  exists l g',
    suggest_numbers [10; 5; 53; 4] [33; 27] 6 [7; 1; 4]%nat = (Ok l, g') ∧
    NoDup l ∧ Sorted Z.le l ∧ Forall (fun x => 1 ≤ x ≤ 60) l ∧
    (6 ≤ 60 -> Z.of_nat (length l) = 6) ∧
    (60 < 6 -> Z.of_nat (length l) = 60 ∧ Z.of_nat (length l) < 6).
Proof.
  apply (suggest_numbers_spec [10; 5; 53; 4] [33; 27] 6 [7; 1; 4]%nat).
  - repeat constructor; lia.
  - repeat constructor; lia.
  - lia.
Defined.

(** ** Frequency Analyzer *)

Lemma incr_sum (k : Z) (t : Series Z Z) : series_sum (incr k t) = series_sum t + 1.
Proof.
  unfold series_sum, series_values.
  induction t as [|[k' c] t IH]; simpl; [done|].
  destruct (k =? k'); simpl; lia.
Qed.

Lemma incr_index (k x : Z) (t : Series Z Z) :
  x ∈ series_index (incr k t) ↔ x = k ∨ x ∈ series_index t.
Proof.
  unfold series_index.
  induction t as [|[k' c] t IH]; simpl.
  - set_solver.
  - destruct (k =? k') eqn:E; simpl.
    + apply Z.eqb_eq in E. set_solver.
    + set_solver.
Qed.

Lemma count_table_sum (l : list Z) : series_sum (count_table l) = Z.of_nat (length l).
Proof.
  unfold count_table.
  assert (forall t, series_sum (fold_left (fun t k => incr k t) l t)
                    = series_sum t + Z.of_nat (length l)) as Hgen.
  { induction l as [|k l IH]; intros t; simpl length; simpl fold_left; [lia|].
    rewrite IH, incr_sum. lia. }
  by rewrite Hgen.
Qed.

Lemma count_table_index (l : list Z) (x : Z) : x ∈ series_index (count_table l) ↔ x ∈ l.
Proof.
  unfold count_table.
  assert (forall t, x ∈ series_index (fold_left (fun t k => incr k t) l t)
                    ↔ x ∈ l ∨ x ∈ series_index t) as Hgen.
  { induction l as [|k l IH]; intros t; simpl fold_left; [set_solver|].
    rewrite IH, incr_index. set_solver. }
  rewrite Hgen. set_solver.
Qed.

Lemma series_sum_perm (s s' : Series Z Z) : s ≡ₚ s' -> series_sum s = series_sum s'.
Proof.
  unfold series_sum, series_values. induction 1; simpl; lia.
Qed.

Lemma sort_values_desc_perm (s : Series Z Z) : sort_values_desc s ≡ₚ s.
Proof. apply stable_sort_perm. Qed.

Lemma sort_values_desc_index (s : Series Z Z) (x : Z) :
  x ∈ series_index (sort_values_desc s) ↔ x ∈ series_index s.
Proof. unfold series_index. by rewrite (sort_values_desc_perm _). Qed.

Lemma value_counts_sum (l : list Z) : series_sum (value_counts l) = Z.of_nat (length l).
Proof.
  unfold value_counts. rewrite (series_sum_perm _ _ (sort_values_desc_perm _)).
  apply count_table_sum.
Qed.

Lemma value_counts_index (l : list Z) (x : Z) : x ∈ series_index (value_counts l) ↔ x ∈ l.
Proof.
  unfold value_counts. rewrite sort_values_desc_index.
  apply count_table_index.
Qed.

Lemma drawn_numbers_length (h : list DrawRecord) :
  Z.of_nat (length (drawn_numbers h)) = 6 * Z.of_nat (length h).
Proof.
  unfold drawn_numbers. simpl. rewrite !length_app, !length_map. simpl. lia.
Qed.

Lemma nth_number_range (j : nat) (r : DrawRecord) :
  valid_record r -> (j < 6)%nat -> 1 ≤ nth_number j r ≤ 60.
Proof.
  intros (Hlen & _ & Hrange) Hj. unfold nth_number.
  destruct (numbers r !! j) as [x|] eqn:E.
  - simpl. eapply Forall_forall in Hrange; [done|]. by eapply list_elem_of_lookup_2.
  - apply lookup_ge_None in E. lia.
Qed.

Lemma drawn_numbers_range (h : list DrawRecord) :
  Forall valid_record h -> Forall (fun x => 1 ≤ x ≤ 60) (drawn_numbers h).
Proof.
  intros Hh. unfold drawn_numbers. apply Forall_concat, Forall_forall.
  intros col [j [-> Hj]]%list_elem_of_fmap.
  apply elem_of_seq in Hj. apply Forall_forall.
  intros x [r [-> Hr]]%list_elem_of_fmap.
  apply nth_number_range; [|lia]. by eapply Forall_forall in Hh.
Qed.

Section FrequencyFacts.
Context {F : Type} `{Float F}.

Lemma numeric_numbers_of_ints (zs : list Z) :
  Forall (fun x => 1 ≤ x ≤ 60) zs ->
  numeric_numbers_of (F:=F) (map CInt zs) = Ok zs.
Proof.
  induction 1 as [|z zs Hz Hzs IH]; simpl; [done|].
  replace ((1 <=? z) && (z <=? 60)) with true by (symmetry; apply andb_true_iff; lia).
  by rewrite IH.
Qed.

Lemma numeric_numbers_of_range (cells : list (cell F)) (nn : list Z) :
  numeric_numbers_of cells = Ok nn -> Forall (fun x => 1 ≤ x ≤ 60) nn.
Proof.
  revert nn. induction cells as [|c cells IH]; intros nn; simpl.
  - intros [= <-]. constructor.
  - destruct (as_number c) as [x|]; [|apply IH].
    destruct (py_int x) as [k|e]; simpl; [|done].
    destruct ((1 <=? k) && (k <=? 60)) eqn:E; [|apply IH].
    destruct (numeric_numbers_of cells) as [tl|e]; simpl; [|done].
    intros [= <-]. constructor; [|by apply IH].
    apply andb_true_iff in E. lia.
Qed.

(** The loop over the six column names only reads the frame. *)
Lemma collect_columns_spec (range : list Z) (acc : list (cell F)) (d : DataFrame F) :
  collect_columns range acc d =
  (Ok (acc ++ concat (map (fun i =>
                             if bool_decide (dezena i ∈ columns d)
                             then dropna (map (fun r => r (dezena i)) (rows d))
                             else []) range)), d).
Proof.
  revert acc. induction range as [|i range IH]; intros acc; simpl.
  - by rewrite app_nil_r.
  - unfold mbind, M_bind, data_columns, getitem, df_getitem; simpl.
    destruct (bool_decide (dezena i ∈ columns d)) eqn:E.
    + cbv beta. rewrite E, IH. by rewrite <- app_assoc.
    + by rewrite IH.
Qed.

Lemma history_column (h : list DrawRecord) (j : nat) :
  Forall valid_record h -> (j < 6)%nat ->
  dropna (map (fun r : DrawRecord => from_option CInt (CNone (F:=F)) (numbers r !! j)) h)
  = map CInt (map (nth_number j) h).
Proof.
  intros Hh Hj. induction Hh as [|r h Hr Hh IH]; simpl; [done|].
  destruct Hr as (Hlen & _).
  unfold nth_number at 1.
  destruct (numbers r !! j) as [x|] eqn:E; simpl.
  - by rewrite IH.
  - apply lookup_ge_None in E. lia.
Qed.

Lemma collect_columns_history (h : list DrawRecord) :
  Forall valid_record h ->
  collect_columns (seqZ 1 6) [] (to_frame h)
  = (Ok (map CInt (drawn_numbers h)), to_frame (F:=F) h).
Proof.
  intros Hh. rewrite collect_columns_spec. do 2 f_equal.
  change (seqZ 1 6) with [1; 2; 3; 4; 5; 6].
  unfold drawn_numbers. simpl concat.
  rewrite !map_app, <- !(history_column h) by (done || lia).
  unfold to_frame; simpl rows; rewrite !map_map.
  reflexivity.
Qed.

End FrequencyFacts.

Section FrequencyClaims.
Context {F : Type} `{Float F}.

(** C2. For a history whose records each hold six distinct numbers of
    [1,60], [analyze_numbers] returns (and leaves the frame as it was), and
    the counts of the frequency table add up to six times the number of
    draws. *)
Theorem analyze_numbers_total_count (h : list DrawRecord) :
  Forall valid_record h ->
  exists freq most_common least_common numeric_numbers,
    analyze_numbers (to_frame (F:=F) h)
    = (Ok (freq, most_common, least_common, numeric_numbers), to_frame h) ∧
    series_sum freq = 6 * Z.of_nat (length h).
Proof.
  intros Hh. unfold analyze_numbers, mbind, M_bind.
  rewrite collect_columns_history by done.
  unfold lift. rewrite numeric_numbers_of_ints by by apply drawn_numbers_range.
  pose proof (drawn_numbers_length h) as Hlen.
  destruct (drawn_numbers h) as [|x l] eqn:E.
  - eexists _, _, _, _. split; [reflexivity|]. simpl in Hlen. unfold series_sum. simpl. lia.
  - eexists _, _, _, _. split; [reflexivity|].
    rewrite (series_sum_perm _ _ (sort_values_desc_perm _)), value_counts_sum. lia.
Qed.

Lemma dropna_concat (ls : list (list (cell F))) :
  dropna (concat ls) = concat (map dropna ls).
Proof.
  unfold dropna. induction ls as [|l ls IH]; simpl; [done|].
  by rewrite List.filter_app, IH.
Qed.

Lemma collect_columns_entries (d : DataFrame F) :
  collect_columns (seqZ 1 6) [] d = (Ok (dropna (dezena_entries d)), d).
Proof.
  rewrite collect_columns_spec, app_nil_l. do 2 f_equal.
  unfold dezena_entries. rewrite dropna_concat, map_map.
  f_equal. apply map_ext. intros i. by destruct (bool_decide _).
Qed.

Lemma numeric_numbers_of_counted (cells : list (cell F)) :
  forallb finite_entry cells = true ->
  numeric_numbers_of (dropna cells) = Ok (omap counted_value cells).
Proof.
  induction cells as [|c cells IH]; simpl; [done|].
  intros [Hc Hcells]%andb_true_iff. specialize (IH Hcells).
  unfold counted_value at 1. destruct (isna c) eqn:Hna; simpl; [done|].
  destruct c as [z|f| | |]; simpl in *; try done.
  - destruct ((1 <=? z) && (z <=? 60)); simpl; by rewrite IH.
  - rewrite Hna in Hc. simpl in Hc. apply bool_decide_eq_true in Hc as [z Hz].
    rewrite Hz. simpl. destruct ((1 <=? z) && (z <=? 60)); simpl; by rewrite IH.
Qed.

Lemma counted_value_range (cells : list (cell F)) :
  Forall (fun x => 1 ≤ x ≤ 60) (omap counted_value cells).
Proof.
  apply Forall_forall. intros x [c [_ Hc]]%list_elem_of_omap.
  unfold counted_value in Hc. destruct (isna c); [done|].
  destruct c as [z|f| | |]; try done.
  - destruct ((1 <=? z) && (z <=? 60)) eqn:E; [|done].
    apply andb_true_iff in E. simplify_eq. lia.
  - destruct (to_int f) as [z|]; [|done].
    destruct ((1 <=? z) && (z <=? 60)) eqn:E; [|done].
    apply andb_true_iff in E. simplify_eq. lia.
Qed.

Lemma series_head_index {V} (k : nat) (s : Series Z V) (x : Z) :
  x ∈ series_index (series_head k s) -> x ∈ series_index s.
Proof.
  unfold series_index, series_head. intros [p [-> Hp]]%list_elem_of_fmap.
  apply list_elem_of_fmap. exists p. split; [done|]. by eapply subseteq_take.
Qed.

Lemma series_tail_index {V} (k : nat) (s : Series Z V) (x : Z) :
  x ∈ series_index (series_tail k s) -> x ∈ series_index s.
Proof.
  unfold series_index, series_tail. intros [p [-> Hp]]%list_elem_of_fmap.
  apply list_elem_of_fmap. exists p. split; [done|]. by eapply subseteq_drop.
Qed.

(** C10, as amended. When no entry is an infinite float, [analyze_numbers]
    returns and leaves the frame as it was; it counts exactly the entries
    that are present, are an int or a float, and whose integer part is in
    [1,60], each under that integer part; so every key of the frequency
    table and every member of [most_common] and [least_common] is in
    [1,60]. *)
Theorem analyze_numbers_validates (d : DataFrame F) :
  forallb finite_entry (dezena_entries d) = true ->
  exists freq most_common least_common numeric_numbers,
    analyze_numbers d = (Ok (freq, most_common, least_common, numeric_numbers), d) ∧
    numeric_numbers = omap counted_value (dezena_entries d) ∧
    Forall (fun x => 1 ≤ x ≤ 60) (series_index freq) ∧
    Forall (fun x => 1 ≤ x ≤ 60) most_common ∧
    Forall (fun x => 1 ≤ x ≤ 60) least_common.
Proof.
  intros Hfin. unfold analyze_numbers, mbind, M_bind.
  rewrite collect_columns_entries. unfold lift.
  rewrite numeric_numbers_of_counted by done.
  pose proof (counted_value_range (dezena_entries d)) as Hrange.
  destruct (omap counted_value (dezena_entries d)) as [|x l] eqn:E.
  - eexists _, _, _, _. split; [reflexivity|]. repeat split; constructor.
  - eexists _, _, _, _. split; [reflexivity|]. split; [done|].
    assert (Forall (fun x => 1 ≤ x ≤ 60)
              (series_index (sort_values_desc (value_counts (x :: l))))) as Hfreq.
    { apply Forall_forall. intros k Hk.
      rewrite sort_values_desc_index, value_counts_index in Hk.
      rewrite Forall_forall in Hrange. by apply Hrange. }
    split; [done|].
    split; apply Forall_forall; intros k Hk;
      [apply series_head_index in Hk|apply series_tail_index in Hk];
      rewrite Forall_forall in Hfreq; by apply Hfreq.
Qed.

End FrequencyClaims.

Lemma analyze_numbers_total_count_witness :
  exists freq most_common least_common numeric_numbers,
    analyze_numbers (to_frame (F:=spec_float) [mkDraw 1 0 [4; 8; 15; 16; 23; 42]])
    = (Ok (freq, most_common, least_common, numeric_numbers),
       to_frame [mkDraw 1 0 [4; 8; 15; 16; 23; 42]]) ∧
    series_sum freq = 6 * Z.of_nat (length [mkDraw 1 0 [4; 8; 15; 16; 23; 42]]).
Proof.
  apply (analyze_numbers_total_count (F:=spec_float) [mkDraw 1 0 [4; 8; 15; 16; 23; 42]]).
  repeat constructor; simpl; try lia; set_solver.
Defined.

(** C10 as stated fails: 60.5 lies outside [1,60], yet it is counted, under
    the key 60. *)
Lemma analyze_numbers_counts_60_5 : ¬ excludes_out_of_range frame_60_5.
Proof.
  intros (freq & most_common & least_common & numeric_numbers & Heq & Hsum).
  assert (analyze_numbers frame_60_5 = (Ok ([(60, 1)], [60], [60], [60]), frame_60_5)) as Hrun
    by (vm_compute; reflexivity).
  rewrite Hrun in Heq. injection Heq as <- _ _ _.
  assert (List.filter lies_in_range (dezena_entries frame_60_5) = []) as Hnone
    by (vm_compute; reflexivity).
  rewrite Hnone in Hsum. unfold series_sum in Hsum. simpl in Hsum. lia.
Qed.

Lemma analyze_numbers_validates_witness :
  exists freq most_common least_common numeric_numbers,
    analyze_numbers frame_60_5
    = (Ok (freq, most_common, least_common, numeric_numbers), frame_60_5) ∧
    numeric_numbers = omap counted_value (dezena_entries frame_60_5) ∧
    Forall (fun x => 1 ≤ x ≤ 60) (series_index freq) ∧
    Forall (fun x => 1 ≤ x ≤ 60) most_common ∧
    Forall (fun x => 1 ≤ x ≤ 60) least_common.
Proof.
  apply (analyze_numbers_validates frame_60_5). vm_compute. reflexivity.
Defined.

(** The scenario of the specification: three draws, thirteen numbers. *)
Example analyze_numbers_scenario :
  let h := [mkDraw 1 0 [1; 2; 3; 4; 5; 6]; mkDraw 2 0 [1; 2; 3; 4; 5; 7];
            mkDraw 3 0 [10; 20; 30; 40; 50; 60]] in
  fst (analyze_numbers (to_frame (F:=spec_float) h))
  = Ok ([(1, 2); (2, 2); (3, 2); (4, 2); (5, 2); (10, 1); (20, 1); (30, 1);
         (40, 1); (50, 1); (6, 1); (7, 1); (60, 1)],
        [1; 2; 3; 4], [7; 60],
        [1; 1; 10; 2; 2; 20; 3; 3; 30; 4; 4; 40; 5; 5; 50; 6; 7; 60]).
Proof. vm_compute. reflexivity. Qed.

(** An infinite float among the entries makes [int] raise. *)
Example analyze_numbers_infinity :
  fst (analyze_numbers (mkDF ["Dezena1"] [fun _ => CFloat (S754_infinity false)]))
  = Raise OverflowError.
Proof. vm_compute. reflexivity. Qed.

(** ** Suggestion Engine: the loop over [least_common] *)

(** A number that is already in the set ends the loop: the numbers after
    it are not looked at. *)
Lemma add_least_common_duplicate (num : Z) (rest : list Z) (n : Z) (s : gset Z) :
  num ∈ s -> add_least_common (num :: rest) n s = s.
Proof.
  intros Hin. simpl. rewrite bool_decide_eq_true_2 by done.
  by rewrite andb_false_r.
Qed.


(** ** Delay Analyzer *)

Lemma fold_left_max_ge (l : list Z) (x : Z) :
  x ≤ fold_left Z.max l x ∧ Forall (fun y => y ≤ fold_left Z.max l x) l.
Proof.
  revert x. induction l as [|y l IH]; intros x; simpl; [split; [lia|constructor]|].
  destruct (IH (Z.max x y)) as [H1 H2]. split; [lia|].
  constructor; [lia|done].
Qed.

Lemma fold_left_max_in (l : list Z) (x : Z) : fold_left Z.max l x ∈ x :: l.
Proof.
  revert x. induction l as [|y l IH]; intros x; simpl; [set_solver|].
  specialize (IH (Z.max x y)).
  destruct (Z.max_spec x y) as [[_ E]|[_ E]]; rewrite E in *; set_solver.
Qed.

(** [maxDrawId] is the greatest draw number of a history that has one. *)
Lemma maxDrawId_spec (h : list DrawRecord) :
  h ≠ [] ->
  (forall r, r ∈ h -> drawId r ≤ maxDrawId h) ∧ (exists r, r ∈ h ∧ drawId r = maxDrawId h).
Proof.
  intros Hne. destruct h as [|r0 h]; [done|]. unfold maxDrawId. simpl map.
  destruct (fold_left_max_ge (map drawId h) (drawId r0)) as [H1 H2]. split.
  - intros r [->|Hr]%elem_of_cons; [done|].
    rewrite Forall_forall in H2. apply H2. by apply list_elem_of_fmap_2.
  - pose proof (fold_left_max_in (map drawId h) (drawId r0)) as Hin.
    change (drawId r0 :: map drawId h) with (map drawId (r0 :: h)) in Hin.
    apply list_elem_of_fmap in Hin as [r [Hr Hin]]. by exists r.
Qed.

Lemma zip_with_map_same {A B C D} (f : B -> C -> D) (g : A -> B) (k : A -> C) (l : list A) :
  zip_with f (map g l) (map k l) = map (fun x => f (g x) (k x)) l.
Proof. induction l as [|x l IH]; simpl; [done|]. by rewrite IH. Qed.

Section DelayFacts.
Context {F : Type} `{Float F}.

Lemma df_getitem_history (name : string) (h : list DrawRecord) :
  name ∈ history_columns ->
  df_getitem (to_frame (F:=F) h) name = Ok (map (fun r => row_of r name) h).
Proof.
  intros Hin. unfold df_getitem. simpl columns.
  rewrite bool_decide_eq_true_2 by done. simpl rows. by rewrite map_map.
Qed.

Lemma getitem_history (name : string) (h : list DrawRecord) :
  name ∈ history_columns ->
  getitem name (to_frame (F:=F) h) = (Ok (map (fun r => row_of r name) h), to_frame h).
Proof. intros Hin. unfold getitem. by rewrite df_getitem_history. Qed.

Lemma series_max_ints (zs : list Z) :
  series_max (F:=F) (map CInt zs)
  = Ok (match zs with [] => None | x :: l => Some (NInt (fold_left Z.max l x)) end).
Proof.
  unfold series_max.
  assert (numbers_of (F:=F) (map CInt zs) = Ok (map NInt zs)) as ->.
  { induction zs as [|z zs IH]; simpl; [done|]. by rewrite IH. }
  simpl. destruct zs as [|x l]; simpl; [done|]. do 2 f_equal.
  revert x. induction l as [|y l IH]; intros x; simpl; [done|].
  rewrite <- IH. f_equal. unfold num_max, num_lt.
  destruct (Z.ltb_spec x y); f_equal; lia.
Qed.

Lemma series_max_history (h : list DrawRecord) :
  h ≠ [] ->
  series_max (F:=F) (map (fun r => row_of r "Concurso") h) = Ok (Some (NInt (maxDrawId h))).
Proof.
  intros Hne.
  change (map (fun r => row_of (F:=F) r "Concurso") h)
    with (map (fun r => CInt (F:=F) (drawId r)) h).
  rewrite <- (map_map drawId CInt), series_max_ints. unfold maxDrawId.
  destruct h; [done|]. reflexivity.
Qed.

(** On a valid draw the six comparisons find [n] exactly when it was drawn. *)
Lemma occurs_in_row (n : Z) (r : DrawRecord) :
  valid_record r ->
  cell_eq_int (F:=F) n (row_of r "Dezena1") || cell_eq_int n (row_of r "Dezena2")
  || cell_eq_int n (row_of r "Dezena3") || cell_eq_int n (row_of r "Dezena4")
  || cell_eq_int n (row_of r "Dezena5") || cell_eq_int n (row_of r "Dezena6")
  = contains n r.
Proof.
  intros (Hlen & _). destruct r as [id dt ns]. simpl in Hlen.
  destruct ns as [|a [|b [|c [|d [|e [|f [|]]]]]]]; try discriminate Hlen.
  change ((a =? n) || (b =? n) || (c =? n) || (d =? n) || (e =? n) || (f =? n)
          = bool_decide (n ∈ [a; b; c; d; e; f])).
  apply eq_true_iff_eq. rewrite bool_decide_eq_true.
  rewrite !orb_true_iff, !Z.eqb_eq, !elem_of_cons, elem_of_nil. intuition.
Qed.

Lemma occurrence_mask_history (n : Z) (h : list DrawRecord) :
  Forall valid_record h ->
  occurrence_mask n (to_frame (F:=F) h) = (Ok (map (contains n) h), to_frame h).
Proof.
  intros Hh. unfold occurrence_mask, mbind, M_bind.
  rewrite !getitem_history by (apply (bool_decide_unpack _); vm_compute; exact I).
  unfold mret, M_ret. do 2 f_equal.
  rewrite !map_map, !zip_with_map_same.
  induction Hh as [|r h Hr Hh IH]; simpl; [done|].
  rewrite IH. f_equal. by apply occurs_in_row.
Qed.

Lemma df_mask_history (n : Z) (h : list DrawRecord) :
  df_mask (to_frame (F:=F) h) (map (contains n) h) = to_frame (containing n h).
Proof.
  unfold df_mask, to_frame. simpl. f_equal.
  induction h as [|r h IH]; simpl; [done|].
  destruct (contains n r); simpl; by rewrite IH.
Qed.

Lemma delay_of_history (n : Z) (h : list DrawRecord) (delays : gmap Z Z) :
  Forall valid_record h -> h ≠ [] ->
  delay_of (Some (NInt (maxDrawId h))) delays n (to_frame (F:=F) h)
  = (Ok (<[n := expected_delay n h]> delays), to_frame h).
Proof.
  intros Hh Hne. unfold delay_of, mbind, M_bind.
  rewrite occurrence_mask_history by done.
  unfold data_mask. rewrite df_mask_history. unfold expected_delay.
  destruct (containing n h) as [|r0 occ] eqn:E.
  - reflexivity.
  - change (df_empty (to_frame (F:=F) (r0 :: occ))) with false. simpl negb. cbv iota.
    unfold lift.
    rewrite df_getitem_history by (apply (bool_decide_unpack _); vm_compute; exact I).
    rewrite series_max_history by done. reflexivity.
Qed.

Lemma expected_delays_lookup (h : list DrawRecord) (selected : list Z)
    (delays : gmap Z Z) (n : Z) :
  n ∈ selected ∨ delays !! n = Some (expected_delay n h) ->
  expected_delays h selected delays !! n = Some (expected_delay n h).
Proof.
  unfold expected_delays. revert delays.
  induction selected as [|k selected IH]; intros delays; simpl.
  - intros [Hin|Hl]; [by apply elem_of_nil in Hin|done].
  - intros Hn. apply IH.
    destruct (decide (n = k)) as [->|Hne].
    + right. apply lookup_insert_eq.
    + destruct Hn as [[->|Hin]%elem_of_cons|Hl]; [done|by left|].
      right. by rewrite lookup_insert_ne.
Qed.

Lemma delays_loop_history (selected : list Z) (h : list DrawRecord) (delays : gmap Z Z) :
  Forall valid_record h -> h ≠ [] ->
  delays_loop selected (Some (NInt (maxDrawId h))) delays (to_frame (F:=F) h)
  = (Ok (expected_delays h selected delays), to_frame h).
Proof.
  intros Hh Hne. revert delays.
  induction selected as [|n selected IH]; intros delays; simpl; [done|].
  unfold mbind, M_bind. rewrite delay_of_history by done. apply IH.
Qed.


End DelayFacts.


(** The scenario of the specification: 6 was last drawn in draw 1 of 3,
    99 never, 60 in the last draw. *)
Example analyze_delays_scenario :
  let h := [mkDraw 1 0 [1; 2; 3; 4; 5; 6]; mkDraw 2 0 [1; 2; 3; 4; 5; 7];
            mkDraw 3 0 [10; 20; 30; 40; 50; 60]] in
  fst (analyze_delays [6; 99; 60] (to_frame (F:=spec_float) h))
  = Ok (<[6 := 2]> (<[99 := -1]> (<[60 := 0]> ∅))).
Proof. vm_compute. reflexivity. Qed.

(** ** Outlier Detector *)

Lemma od_set_new {V} (k : Z) (v : V) (od : list (Z * V)) :
  k ∉ map fst od -> od_set k v od = od ++ [(k, v)].
Proof.
  induction od as [|[k' v'] od IH]; simpl; [done|].
  intros Hk. apply not_elem_of_cons in Hk as [Hne Hk].
  destruct (Z.eqb_spec k k') as [->|_]; [done|]. by rewrite IH.
Qed.

Lemma incr_NoDup (k : Z) (t : Series Z Z) :
  NoDup (series_index t) -> NoDup (series_index (incr k t)).
Proof.
  unfold series_index. induction t as [|[k' c] t IH]; simpl.
  - intros _. repeat constructor. set_solver.
  - intros [Hk' Ht]%NoDup_cons. destruct (Z.eqb_spec k k') as [->|Hne]; simpl.
    + by apply NoDup_cons.
    + apply NoDup_cons. split; [|by apply IH].
      intros Hin. apply (incr_index k k' t) in Hin as [->|Hin]; done.
Qed.

(** The labels of a table of counts are distinct. *)
Lemma value_counts_NoDup (l : list Z) : NoDup (series_index (value_counts l)).
Proof.
  unfold value_counts, series_index. rewrite (sort_values_desc_perm _).
  unfold count_table.
  assert (forall t, NoDup (series_index t) ->
                    NoDup (series_index (fold_left (fun t k => incr k t) l t))) as Hgen.
  { induction l as [|k l IH]; intros t Ht; simpl; [done|]. by apply IH, incr_NoDup. }
  apply Hgen. constructor.
Qed.

Section OutlierFacts.
Context {F : Type} `{Float F} `{FloatSqrt F}.

Lemma flagged_index (labels : list Z) (sigma std : F) (points : list (F * F)) (x : Z) :
  x ∈ map fst (flagged labels sigma std points) -> x ∈ labels.
Proof.
  unfold flagged. revert points.
  induction labels as [|l labels IH]; intros [|[y_i avg_i] points]; simpl;
    try (intros Hx; by apply elem_of_nil in Hx).
  case_if; simpl; intros Hx.
  - apply elem_of_cons in Hx as [->|Hx]; [left|right; by eapply IH].
  - right. by eapply IH.
Qed.

Lemma anomaly_loop_spec (frequencies : Series Z Z) (sigma std : F)
    (points : list (F * F)) (k : nat) (anomalies : list (Z * F)) :
  NoDup (series_index frequencies) ->
  (forall x, x ∈ map fst anomalies -> x ∈ take k (series_index frequencies)) ->
  fold_left (anomaly_step frequencies sigma std) (zip (seq k (length points)) points) anomalies
  = anomalies ++ flagged (drop k (series_index frequencies)) sigma std points.
Proof.
  intros Hnd. revert k anomalies.
  induction points as [|[y_i avg_i] points IH]; intros k anomalies Hacc; simpl.
  - unfold flagged. rewrite zip_with_nil_r. simpl. by rewrite app_nil_r.
  - unfold is_anomaly.
    destruct (series_index frequencies !! k) as [label|] eqn:Hk.
    + rewrite (drop_S _ _ _ Hk).
      assert (k < length (series_index frequencies))%nat as Hlt
        by by eapply lookup_lt_Some.
      apply Nat.ltb_lt in Hlt. rewrite Hlt.
      assert (forall x, x ∈ map fst anomalies ∨ x = label ->
                        x ∈ take (S k) (series_index frequencies)) as Hnext.
      { intros x Hx. rewrite (take_S_r _ _ _ Hk). set_solver. }
      unfold flagged at 1. simpl.
      case_if; simpl.
      * rewrite od_set_new.
        -- rewrite IH; [by rewrite <- app_assoc|].
           intros x Hx. apply Hnext. rewrite map_app in Hx. set_solver.
        -- intros Hin. apply Hacc in Hin.
           apply elem_of_take in Hin as (j & Hj & Hjk).
           pose proof (NoDup_lookup _ _ _ _ Hnd Hj Hk). lia.
      * apply IH. intros x Hx. apply Hnext. by left.
    + apply lookup_ge_None in Hk as Hge.
      rewrite drop_ge by done.
      replace (k <? length (series_index frequencies))%nat with false
        by (symmetry; apply Nat.ltb_ge; lia).
      assert (forall acc, fold_left (anomaly_step frequencies sigma std)
                            (zip (seq (S k) (length points)) points) acc = acc) as Hrest.
      { clear -Hge. revert k Hge. induction points as [|[y avg] points IH];
          intros k Hge acc; simpl; [done|].
        replace (S k <? length (series_index frequencies))%nat with false
          by (symmetry; apply Nat.ltb_ge; lia).
        destruct (is_anomaly sigma std y avg); apply IH; lia. }
      unfold flagged. simpl. rewrite app_nil_r.
      case_if; apply Hrest.
Qed.

Lemma omap_cons {A B} (g : A -> option B) (x : A) (l : list A) :
  omap g (x :: l) = match g x with Some y => y :: omap g l | None => omap g l end.
Proof. reflexivity. Qed.

Lemma omap_seq_shift {B} (g : nat -> option B) (k n : nat) :
  omap g (seq (S k) n) = omap (fun j => g (S j)) (seq k n).
Proof.
  revert k. induction n as [|n IH]; intros k; simpl seq; [done|].
  by rewrite !omap_cons, IH.
Qed.

Lemma omap_none {A B} (l : list A) : omap (fun _ => @None B) l = [].
Proof. induction l as [|x l IH]; [done|]. by rewrite omap_cons. Qed.

(** Against a constant window the convolution adds up a slice of [a]. *)
Lemma convolve_at_replicate (a : list F) (w : nat) (c : F) (t : nat) :
  convolve_at a (replicate w c) t
  = fsum (map (fun x => fmul x c) (drop (t + 1 - w) (take (t + 1) a))).
Proof.
  unfold convolve_at. f_equal. revert t.
  induction a as [|x a IH]; intros t.
  - simpl. by rewrite take_nil, drop_nil.
  - simpl length. simpl seq. rewrite omap_cons, omap_seq_shift.
    destruct t as [|t].
    + cbn [Nat.leb]. rewrite omap_none. simpl.
      destruct w as [|w]; reflexivity.
    + cbn [Nat.leb]. rewrite IH.
      replace (S t + 1)%nat with (S (t + 1)) by lia. rewrite firstn_cons.
      change ((x :: a) !! 0%nat) with (Some x). change (S t - 0)%nat with (S t).
      destruct (decide (S t < w)%nat) as [Hlt|Hge].
      * rewrite lookup_replicate_2 by done. simpl.
        replace (S (t + 1) - w)%nat with 0%nat by lia.
        replace (t + 1 - w)%nat with 0%nat by lia. done.
      * assert (replicate w c !! S t = None) as -> by (apply lookup_replicate_None; lia).
        simpl. replace (S (t + 1) - w)%nat with (S (t + 1 - w)) by lia. done.
Qed.

Lemma np_convolve_same_length (a v : list F) :
  a ≠ [] -> v ≠ [] -> (length v ≤ length a)%nat ->
  exists r, np_convolve_same a v = Ok r ∧ length r = length a.
Proof.
  intros Ha Hv Hle. unfold np_convolve_same.
  destruct a as [|x a]; [done|]. destruct v as [|z v]; [done|].
  replace (length (x :: a) <? length (z :: v))%nat with false
    by (symmetry; apply Nat.ltb_ge; lia).
  eexists. split; [reflexivity|]. by rewrite length_map, length_seq.
Qed.

Lemma centered_average_length (y : list F) (w : Z) :
  length (centered_average y w) = length y.
Proof. unfold centered_average. by rewrite length_map, length_seq. Qed.

Lemma map_const_replicate {A B} (c : B) (l : list A) :
  map (fun _ => c) l = replicate (length l) c.
Proof. induction l as [|x l IH]; simpl; [done|]. by rewrite IH. Qed.

(** [moving_average] is the centered moving average, and all zeros for a
    window that is not positive. *)
Lemma moving_average_spec (y : list F) (window_size : Z) :
  window_size ≤ Z.of_nat (length y) ->
  moving_average y window_size = Ok (centered_average y window_size).
Proof.
  intros Hw. unfold moving_average, centered_average.
  destruct (Z.leb_spec window_size 0) as [Hle|Hpos].
  - f_equal. unfold np_zeros_like.
    replace (Z.to_nat window_size) with 0%nat by lia.
    transitivity (map (fun _ : nat => of_int (F:=F) 0) (seq 0 (length y))).
    + by rewrite !map_const_replicate, length_seq.
    + apply map_ext. intros i. unfold centered_window.
      rewrite drop_ge by (rewrite length_take; lia). reflexivity.
  - unfold np_ones.
    change (map (fun x => fdiv x (of_int window_size))
                (replicate (Z.to_nat window_size) (of_int 1)))
      with ((fun x => fdiv x (of_int window_size)) <$>
                replicate (Z.to_nat window_size) (of_int 1)).
    rewrite fmap_replicate.
    unfold np_convolve_same.
    destruct y as [|x y]; [simpl in Hw; lia|].
    destruct (Z.to_nat window_size) as [|w] eqn:Ew; [lia|].
    cbn [replicate]. cbv iota beta.
    set (c := fdiv (of_int 1) (of_int window_size)).
    change (c :: replicate w c) with (replicate (S w) c).
    rewrite length_replicate.
    replace (length (x :: y) <? S w)%nat with false
      by (symmetry; apply Nat.ltb_ge; lia).
    f_equal. apply map_ext. intros i.
    rewrite length_replicate, convolve_at_replicate. reflexivity.
Qed.

Lemma np_sub_same_length (a b : list F) :
  length a = length b -> np_sub a b = Ok (zip_with fsub a b).
Proof. intros Hl. unfold np_sub. by rewrite bool_decide_eq_true_2. Qed.

(** [explain_anomalies] when the window fits: the loop runs over [y] and its
    centered moving average. *)
Lemma explain_anomalies_unfold (frequencies : Series Z Z) (y : list F)
    (window_size : Z) (sigma : F) :
  window_size ≤ Z.of_nat (length y) ->
  let avg := centered_average y window_size in
  let std := np_std (zip_with fsub y avg) in
  explain_anomalies frequencies y window_size sigma
  = Ok (mkReport (fround std 2)
                 (fold_left (anomaly_step frequencies sigma std)
                            (zip (seq 0 (length (zip y avg))) (zip y avg)) [])).
Proof.
  intros Hw avg std. unfold explain_anomalies.
  replace (Z.of_nat (length y) <? window_size) with false
    by (symmetry; apply Z.ltb_ge; lia).
  rewrite moving_average_spec by done. fold avg. simpl.
  rewrite np_sub_same_length by (unfold avg; by rewrite centered_average_length).
  reflexivity.
Qed.

(** [explain_anomalies] and [analyze_outliers] never raise. *)
Lemma explain_anomalies_returns (frequencies : Series Z Z) (y : list F)
    (window_size : Z) (sigma : F) :
  exists report, explain_anomalies frequencies y window_size sigma = Ok report.
Proof.
  destruct (Z.ltb_spec (Z.of_nat (length y)) window_size) as [Hlt|Hge].
  - unfold explain_anomalies.
    replace (Z.of_nat (length y) <? window_size) with true
      by (symmetry; by apply Z.ltb_lt).
    by eexists.
  - rewrite explain_anomalies_unfold by done. by eexists.
Qed.

Lemma analyze_outliers_returns (frequencies : Series Z Z) :
  exists outliers std, analyze_outliers frequencies = Ok (outliers, std).
Proof.
  unfold analyze_outliers. destruct frequencies as [|p l]; [by eexists _, _|].
  destruct (explain_anomalies_returns (p :: l) (map of_int (series_values (p :: l)))
              (default_window_size (p :: l)) sigma_value) as [report ->].
  by eexists _, _.
Qed.



End OutlierFacts.




(** With the default window the guard of [explain_anomalies] is never
    taken: the window is at most half the length of the table. *)
Lemma default_window_size_le (frequencies : Series Z Z) :
  default_window_size frequencies ≤ Z.of_nat (length frequencies) ∨ frequencies = [].
Proof.
  destruct frequencies as [|p l]; [by right|left].
  unfold default_window_size.
  replace (0 <? Z.of_nat (length (p :: l))) with true
    by (symmetry; apply Z.ltb_lt; simpl; lia).
  assert (Z.of_nat (length (p :: l)) / 2 ≤ Z.of_nat (length (p :: l))); [|lia].
  apply Z.div_le_upper_bound; lia.
Qed.

(** ** Frame effects *)

Section FrameEffects.
Context {F : Type} `{Float F}.

Lemma reads_bind {A B} (m : M (F:=F) A) (k : A -> M (F:=F) B) :
  reads m -> (forall a, reads (k a)) -> reads (m ≫= k).
Proof.
  intros Hm Hk d. unfold mbind, M_bind. specialize (Hm d).
  destruct (m d) as [[a|e] d']; simpl in Hm; subst d'; [apply Hk|reflexivity].
Qed.

Lemma reads_ret {A} (a : A) : reads (F:=F) (mret a).
Proof. by intros d. Qed.

Lemma reads_lift {A} (r : result A) : reads (F:=F) (lift r).
Proof. by intros d. Qed.

Lemma reads_getitem (name : string) : reads (F:=F) (getitem name).
Proof. by intros d. Qed.

Lemma reads_iterrows : reads (F:=F) iterrows.
Proof. by intros d. Qed.

Lemma reads_data_empty : reads (F:=F) data_empty.
Proof. by intros d. Qed.

Lemma reads_data_columns : reads (F:=F) data_columns.
Proof. by intros d. Qed.

Lemma reads_data_mask (mask : list bool) : reads (F:=F) (data_mask mask).
Proof. by intros d. Qed.

(** One step through a computation made of reads. *)
Ltac reads_step :=
  match goal with
  | |- reads (mret _) => apply reads_ret
  | |- reads (lift _) => apply reads_lift
  | |- reads (getitem _) => apply reads_getitem
  | |- reads iterrows => apply reads_iterrows
  | |- reads data_empty => apply reads_data_empty
  | |- reads data_columns => apply reads_data_columns
  | |- reads (data_mask _) => apply reads_data_mask
  | |- reads (_ ≫= _) => apply reads_bind; [|intros ?]
  | |- reads (if ?b then _ else _) => destruct b
  | |- reads (match ?l with [] => _ | _ :: _ => _ end) => destruct l
  end.

Lemma collect_columns_reads (range : list Z) (numbers : list (cell F)) :
  reads (collect_columns range numbers).
Proof.
  revert numbers. induction range as [|i range IH]; intros numbers; simpl.
  - apply reads_ret.
  - repeat reads_step; apply IH.
Qed.

(** [analyze_numbers] only reads the frame. *)
Lemma analyze_numbers_reads : reads (F:=F) analyze_numbers.
Proof.
  unfold analyze_numbers. reads_step; [apply collect_columns_reads|].
  repeat reads_step.
Qed.

Lemma delay_of_reads (last_concurso : option (number F)) (delays : gmap Z Z) (n : Z) :
  reads (delay_of last_concurso delays n).
Proof. unfold delay_of, occurrence_mask. repeat reads_step. Qed.

Lemma delays_loop_reads (selected : list Z) (last_concurso : option (number F))
    (delays : gmap Z Z) :
  reads (delays_loop selected last_concurso delays).
Proof.
  revert delays. induction selected as [|n selected IH]; intros delays; simpl.
  - apply reads_ret.
  - reads_step; [apply delay_of_reads|apply IH].
Qed.

(** [analyze_delays] only reads the frame. *)
Lemma analyze_delays_reads (selected : list Z) : reads (F:=F) (analyze_delays selected).
Proof.
  unfold analyze_delays. repeat reads_step. apply delays_loop_reads.
Qed.

Lemma mapR_length {A B} (f : A -> result B) (l : list A) (l' : list B) :
  mapR f l = Ok l' -> length l' = length l.
Proof.
  revert l'. induction l as [|x l IH]; intros l'; simpl.
  - by intros [= <-].
  - destruct (f x) as [y|e]; simpl; [|done].
    destruct (mapR f l) as [ys|e]; simpl; [|done].
    intros [= <-]. simpl. f_equal. by apply IH.
Qed.

(** On valid draws the row sums are defined. *)
Lemma row_sums_history (h : list DrawRecord) :
  Forall valid_record h ->
  exists soma,
    mapR (row_sum (F:=F))
         (map (fun r : Row F => map r (map dezena (seqZ 1 6))) (map row_of h))
    = Ok soma.
Proof.
  induction 1 as [|r h Hr Hh [soma IH]]; [by eexists|].
  rewrite !map_cons.
  change (mapR row_sum (?x :: ?l)) with (y ← row_sum x; ys ← mapR row_sum l; Ok (y :: ys)).
  assert (exists c, row_sum (F:=F) (map (row_of r) (map dezena (seqZ 1 6))) = Ok c)
    as [c ->].
  { destruct Hr as (Hlen & _). destruct r as [id dt ns]. simpl in Hlen.
    destruct ns as [|a [|b [|c [|d [|e [|f [|]]]]]]]; try discriminate Hlen.
    eexists. vm_compute. reflexivity. }
  change (Ok c ≫= ?k) with (k c). cbv beta. rewrite IH. by eexists.
Qed.

(** On every non-empty valid history [analyze_drawing_patterns] leaves the
    caller's frame with one more column. *)
Lemma analyze_drawing_patterns_adds_column (h : list DrawRecord) :
  Forall valid_record h -> h ≠ [] ->
  columns (snd (analyze_drawing_patterns (to_frame (F:=F) h)))
  = history_columns ++ ["SomaDezenas"].
Proof.
  intros Hh Hne. destruct (row_sums_history h Hh) as [soma Hsoma].
  pose proof (mapR_length _ _ _ Hsoma) as Hlen. rewrite !length_map in Hlen.
  unfold analyze_drawing_patterns.
  unfold mbind at 1. unfold M_bind at 1. unfold data_empty.
  replace (df_empty (to_frame (F:=F) h)) with false by (destruct h; done).
  unfold mbind at 1. unfold M_bind at 1.
  assert (getitems (map dezena (seqZ 1 6)) (to_frame (F:=F) h)
          = (Ok (map (fun r : Row F => map r (map dezena (seqZ 1 6))) (map row_of h)),
             to_frame h))
    as -> by reflexivity.
  unfold mbind at 1. unfold M_bind at 1. unfold lift at 1. rewrite Hsoma.
  unfold mbind at 1. unfold M_bind at 1. unfold setitem.
  simpl rows. rewrite length_map, bool_decide_eq_true_2 by done.
  match goal with |- columns (snd (?m ?d)) = _ => assert (reads m) as -> end.
  { repeat reads_step.
    match goal with |- reads (let '(_, _) := ?p in _) => destruct p end.
    apply reads_ret. }
  reflexivity.
Qed.

End FrameEffects.

(** C7 fails for the Pattern Analyzer: on the one-draw history
    {4, 8, 15, 16, 23, 42}, [analyze_drawing_patterns] returns with the
    caller's frame changed: it has the new column [SomaDezenas], holding the
    sum 108. *)
Theorem analyze_drawing_patterns_writes_frame :
  let data : DataFrame spec_float := to_frame [mkDraw 1 0 [4; 8; 15; 16; 23; 42]] in
  let data' := snd (analyze_drawing_patterns data) in
  (exists stats distribution,
     fst (analyze_drawing_patterns data) = Ok (stats, distribution) ∧
     distribution !! "4 Pares / 2 Ímpares" = Some 1) ∧
  columns data = history_columns ∧
  columns data' = history_columns ++ ["SomaDezenas"] ∧
  map (fun row => row "SomaDezenas") (rows data') = [CInt 108].
Proof.
  split.
  - eexists _, _. split; [vm_compute; reflexivity|]. vm_compute. reflexivity.
  - vm_compute. done.
Qed.

(** ** Empty input *)

Section EmptyInput.
Context {F : Type} `{Float F} `{FloatSqrt F}.

Lemma dezena_entries_empty (d : DataFrame F) : df_empty d = true -> dezena_entries d = [].
Proof.
  unfold df_empty, dezena_entries. intros He.
  generalize (seqZ 1 6). intros l.
  induction l as [|i l IH]; simpl; [done|]. rewrite IH, app_nil_r.
  case_if; [|done].
  destruct (columns d) as [|c cs] eqn:Ec.
  - apply bool_decide_eq_true_1 in Heqb. by apply elem_of_nil in Heqb.
  - destruct (rows d); [done|discriminate He].
Qed.

(** C9. On an empty history, a frame with no column or no row, no analyzer
    raises and each returns its empty result: [analyze_numbers] the empty
    table and empty lists, [analyze_delays] the empty table,
    [analyze_drawing_patterns] two empty dictionaries; on an empty
    frequency table [calculate_probabilities] returns the empty series and
    [analyze_outliers] no outlier and deviation 0; and a frequency table
    whose counts add up to zero gives the empty series, not a division
    error. *)
Theorem analyzers_on_empty_input (d : DataFrame F) (selected : list Z)
    (frequencies : Series Z Z) :
  df_empty d = true ->
  analyze_numbers d = (Ok ([], [], [], []), d) ∧
  analyze_delays selected d = (Ok ∅, d) ∧
  analyze_drawing_patterns d = (Ok (∅, ∅), d) ∧
  calculate_probabilities (F:=F) [] = [] ∧
  analyze_outliers (F:=F) [] = Ok ([], of_int 0) ∧
  (series_sum frequencies = 0 -> calculate_probabilities (F:=F) frequencies = []).
Proof.
  intros He. repeat split.
  - unfold analyze_numbers, mbind, M_bind.
    rewrite collect_columns_entries, dezena_entries_empty by done. reflexivity.
  - unfold analyze_delays, mbind, M_bind, data_empty. by rewrite He.
  - unfold analyze_drawing_patterns, mbind, M_bind, data_empty. by rewrite He.
  - intros Hsum. unfold calculate_probabilities.
    destruct frequencies; [done|]. by rewrite Hsum.
Qed.

End EmptyInput.

Lemma analyzers_on_empty_input_witness :
  analyze_numbers (to_frame (F:=spec_float) []) = (Ok ([], [], [], []), to_frame []) ∧
  analyze_delays [7; 99] (to_frame (F:=spec_float) []) = (Ok ∅, to_frame []) ∧
  analyze_drawing_patterns (to_frame (F:=spec_float) []) = (Ok (∅, ∅), to_frame []) ∧
  calculate_probabilities (F:=spec_float) [] = [] ∧
  analyze_outliers (F:=spec_float) [] = Ok ([], of_int 0) ∧
  (series_sum [(7, 0); (9, 0)] = 0 ->
   calculate_probabilities (F:=spec_float) [(7, 0); (9, 0)] = []).
Proof.
  apply (analyzers_on_empty_input (F:=spec_float) (to_frame []) [7; 99] [(7, 0); (9, 0)]).
  reflexivity.
Defined.

(** ** Probability Calculator, in exact arithmetic *)

Lemma fsum_Qsum (l : list Q) : (fsum l == Qsum l)%Q.
Proof.
  unfold fsum. simpl.
  assert (forall a, (fold_left Qplus l a == a + Qsum l)%Q) as Hgen.
  { induction l as [|x l IH]; intros a; simpl; [ring|]. rewrite IH. ring. }
  rewrite Hgen. ring.
Qed.

Lemma Qsum_perm (l l' : list Q) : l ≡ₚ l' -> (Qsum l == Qsum l')%Q.
Proof.
  induction 1 as [|x l l' _ IH|x y l|l l' l'' _ IH1 _ IH2]; simpl.
  - reflexivity.
  - by rewrite IH.
  - ring.
  - by rewrite IH1.
Qed.

Lemma Qsum_percentages (total : Z) (frequencies : Series Z Z) :
  total ≠ 0 ->
  (Qsum (series_values (map (percentage total) frequencies))
   == inject_Z (series_sum frequencies) / inject_Z total * inject_Z 100)%Q.
Proof.
  intros Ht.
  assert (¬ (inject_Z total == 0)%Q) as Hq.
  { unfold Qeq. simpl. lia. }
  unfold series_sum, series_values.
  induction frequencies as [|[k c] l IH]; simpl.
  - field. done.
  - rewrite IH, inject_Z_plus. field. done.
Qed.

Lemma value_before_total (x y : Z * Q) :
  value_before x y = false -> value_before y x = true.
Proof.
  unfold value_before. simpl. unfold Q_ltb. rewrite !negb_involutive.
  intros Hxy.
  destruct (Qle_bool (snd x) (snd y)) eqn:E; [done|].
  destruct (Qlt_le_dec (snd x) (snd y)) as [Hlt|Hle].
  - apply Qlt_le_weak, Qle_bool_iff in Hlt. congruence.
  - apply Qle_bool_iff in Hle. congruence.
Qed.

Lemma calculate_probabilities_unfold (frequencies : Series Z Z) :
  frequencies ≠ [] -> series_sum frequencies ≠ 0 ->
  calculate_probabilities (F:=Q) frequencies
  = stable_sort value_before (map (percentage (series_sum frequencies)) frequencies).
Proof.
  intros Hne Ht. unfold calculate_probabilities.
  destruct frequencies as [|p l]; [done|].
  destruct (Z.eqb_spec (series_sum (p :: l)) 0) as [E|_]; [done|].
  f_equal. apply map_ext. by intros [k c].
Qed.




(** * Further properties of the code *)

(** ** Frequency Analyzer: what the table holds *)

Lemma series_get_None {V} (s : Series Z V) (k : Z) :
  series_get s k = None ↔ k ∉ series_index s.
Proof.
  unfold series_get, series_index.
  induction s as [|[k' v] s IH]; simpl.
  - split; [intros _; apply not_elem_of_nil|done].
  - destruct (Z.eqb_spec k' k) as [->|Hne]; simpl.
    + split; [done|]. intros Hk. exfalso. apply Hk. left.
    + rewrite IH, not_elem_of_cons. naive_solver.
Qed.

Lemma series_get_Some {V} (s : Series Z V) (k : Z) (v : V) :
  NoDup (series_index s) -> series_get s k = Some v ↔ (k, v) ∈ s.
Proof.
  unfold series_get, series_index.
  induction s as [|[k' v'] s IH]; simpl.
  - intros _. split; [done|]. intros Hin. by apply elem_of_nil in Hin.
  - intros [Hk' Hnd]%NoDup_cons. destruct (Z.eqb_spec k' k) as [->|Hne]; simpl.
    + split.
      * intros [= ->]. left.
      * intros [[= ->]|Hin]%elem_of_cons; [done|].
        exfalso. apply Hk'. apply list_elem_of_fmap. by exists (k, v).
    + rewrite IH by done. rewrite elem_of_cons. naive_solver.
Qed.

Lemma series_get_perm {V} (s s' : Series Z V) (k : Z) :
  NoDup (series_index s) -> s ≡ₚ s' -> series_get s k = series_get s' k.
Proof.
  intros Hnd Hp.
  assert (NoDup (series_index s')) as Hnd' by (unfold series_index in *; by rewrite <- Hp).
  destruct (series_get s k) as [v|] eqn:E.
  - symmetry. apply series_get_Some; [done|]. rewrite <- Hp. by apply series_get_Some.
  - symmetry. apply series_get_None. apply series_get_None in E.
    unfold series_index in *. by rewrite <- Hp.
Qed.

Lemma incr_tally (k k' : Z) (t : Series Z Z) :
  tally (incr k t) k' = tally t k' + (if k' =? k then 1 else 0).
Proof.
  unfold tally, series_get.
  induction t as [|[k0 c] t IH]; simpl.
  - rewrite (Z.eqb_sym k k'). by destruct (k' =? k).
  - destruct (Z.eqb_spec k k0) as [->|Hne]; simpl.
    + destruct (Z.eqb_spec k0 k') as [->|Hne']; simpl.
      * by rewrite Z.eqb_refl.
      * replace (k' =? k0) with false by (symmetry; apply Z.eqb_neq; congruence). lia.
    + destruct (Z.eqb_spec k0 k') as [->|Hne']; simpl.
      * replace (k' =? k) with false by (symmetry; apply Z.eqb_neq; congruence). lia.
      * apply IH.
Qed.

Lemma count_table_tally (l : list Z) (k : Z) :
  tally (count_table l) k = Z.of_nat (count_occ Z.eq_dec l k).
Proof.
  unfold count_table.
  assert (forall t, tally (fold_left (fun t k => incr k t) l t) k
                    = tally t k + Z.of_nat (count_occ Z.eq_dec l k)) as Hgen.
  { induction l as [|x l IH]; intros t; simpl; [lia|].
    rewrite IH, incr_tally.
    destruct (Z.eq_dec x k) as [->|Hne].
    - rewrite Z.eqb_refl. lia.
    - replace (k =? x) with false by (symmetry; apply Z.eqb_neq; congruence). lia. }
  by rewrite Hgen.
Qed.

Lemma count_table_NoDup (l : list Z) : NoDup (series_index (count_table l)).
Proof.
  unfold count_table.
  assert (forall t, NoDup (series_index t) ->
                    NoDup (series_index (fold_left (fun t k => incr k t) l t))) as Hgen.
  { induction l as [|k l IH]; intros t Ht; simpl; [done|]. by apply IH, incr_NoDup. }
  apply Hgen. constructor.
Qed.

Lemma sort_values_desc_tally (s : Series Z Z) (k : Z) :
  NoDup (series_index s) -> tally (sort_values_desc s) k = tally s k.
Proof.
  intros Hnd. unfold tally. f_equal. symmetry.
  apply series_get_perm; [done|]. symmetry. apply sort_values_desc_perm.
Qed.

Lemma sort_values_desc_NoDup (s : Series Z Z) :
  NoDup (series_index s) -> NoDup (series_index (sort_values_desc s)).
Proof. unfold series_index. by rewrite (sort_values_desc_perm _). Qed.

Lemma count_before_total (x y : Z * Z) :
  count_before x y = false -> count_before y x = true.
Proof. unfold count_before. intros Hxy. apply Z.leb_gt in Hxy. apply Z.leb_le. lia. Qed.

#[local] Instance descending_trans : Transitive (fun a b : Z * Z => snd b ≤ snd a).
Proof. intros x y z Hxy Hyz. lia. Qed.

Lemma sort_values_desc_sorted (s : Series Z Z) :
  StronglySorted (fun a b => snd b ≤ snd a) (sort_values_desc s).
Proof.
  apply Sorted_StronglySorted; [apply _|].
  eapply Sorted_mono; [|apply stable_sort_Sorted, count_before_total].
  intros x y Hxy. by apply Z.leb_le.
Qed.

(** What [analyze_numbers] returns, as a function of the entries it read. *)
Lemma analyze_numbers_unfold {F} `{Float F} (d : DataFrame F) :
  analyze_numbers d
  = (numeric_numbers ← numeric_numbers_of (dropna (dezena_entries d));
     match numeric_numbers with
     | [] => Ok ([], [], [], [])
     | _ =>
         let freq := sort_values_desc (value_counts numeric_numbers) in
         Ok (freq,
             series_index (series_head (Nat.min 4 (length freq)) freq),
             series_index (series_tail (Nat.min 2 (length freq)) freq),
             numeric_numbers)
     end, d).
Proof.
  unfold analyze_numbers, mbind at 1, M_bind at 1.
  rewrite collect_columns_entries.
  unfold mbind at 1, M_bind at 1, lift.
  destruct (numeric_numbers_of _) as [[|x l]|e]; reflexivity.
Qed.

(** Sorting what is already in order changes nothing. *)
Lemma Sorted_stable_sort_id {A} (before : A -> A -> bool) (l : list A) :
  Sorted (fun u v => before u v = true) l -> stable_sort before l = l.
Proof.
  induction 1 as [|x l Hs IH Hhd]; simpl; [done|].
  rewrite IH. destruct Hhd as [|y l' Hxy]; simpl; [done|]. by rewrite Hxy.
Qed.

Lemma tally_elem_of (s : Series Z Z) (k c : Z) :
  NoDup (series_index s) -> (k, c) ∈ s -> tally s k = c.
Proof.
  intros Hnd Hin. unfold tally. apply (series_get_Some s k c Hnd) in Hin. by rewrite Hin.
Qed.

(** In a table sorted by descending count, whatever stands in the first [m]
    rows counts at least as much as whatever stands after them. *)
Lemma ranking_split (s : Series Z Z) (m : nat) (a b : Z) :
  NoDup (series_index s) ->
  StronglySorted (fun p q => snd q ≤ snd p) s ->
  a ∈ series_index (take m s) -> b ∈ series_index (drop m s) ->
  tally s b ≤ tally s a.
Proof.
  intros Hnd Hs [[a' ca] [-> Ha]]%list_elem_of_fmap [[b' cb] [-> Hb]]%list_elem_of_fmap.
  simpl. rewrite <- (take_drop m s) in Hs.
  pose proof (StronglySorted_app_1_elem_of _ _ _ _ _ Hs Ha Hb) as Hle. simpl in Hle.
  rewrite (tally_elem_of s a' ca), (tally_elem_of s b' cb); try done.
  - by eapply subseteq_drop.
  - by eapply subseteq_take.
Qed.

Lemma series_index_split {V} (s : Series Z V) (m : nat) (x : Z) :
  x ∈ series_index s -> x ∈ series_index (take m s) ∨ x ∈ series_index (drop m s).
Proof.
  unfold series_index. rewrite <- (take_drop m s) at 1.
  rewrite map_app, elem_of_app. done.
Qed.

Lemma take_min {A} (l : list A) (n : nat) : take (n `min` length l) l = take n l.
Proof.
  destruct (Nat.min_spec n (length l)) as [[_ ->]|[Hle ->]]; [done|].
  by rewrite !take_ge by lia.
Qed.

Lemma drop_min {A} (l : list A) (n : nat) :
  drop (length l - n `min` length l) l = drop (length l - n) l.
Proof.
  destruct (Nat.min_spec n (length l)) as [[_ ->]|[Hle ->]]; [done|].
  f_equal. lia.
Qed.

Section FrequencyTable.
Context {F : Type} `{Float F}.

(** The four results of [analyze_numbers], from the numbers it kept. *)
Lemma analyze_numbers_results (d : DataFrame F) (freq : Series Z Z)
    (most_common least_common numeric_numbers : list Z) :
  fst (analyze_numbers d) = Ok (freq, most_common, least_common, numeric_numbers) ->
  numeric_numbers_of (dropna (dezena_entries d)) = Ok numeric_numbers ∧
  freq = sort_values_desc (count_table numeric_numbers) ∧
  most_common = take 4 (series_index freq) ∧
  least_common = drop (length freq - 2) (series_index freq).
Proof.
  rewrite analyze_numbers_unfold. unfold mbind, result_bind, rbind. cbn [fst].
  destruct (numeric_numbers_of _) as [[|x l]|e]; cbv zeta; [| |done].
  - by intros [= <- <- <- <-].
  - set (freq' := sort_values_desc (value_counts (x :: l))).
    intros [= <- <- <- <-]. split; [done|].
    assert (freq' = sort_values_desc (count_table (x :: l))) as Hfreq.
    { unfold freq', value_counts, sort_values_desc.
      apply (Sorted_stable_sort_id count_before). apply stable_sort_Sorted, count_before_total. }
    split; [done|]. unfold series_head, series_tail, series_index.
    rewrite <- fmap_take, <- fmap_drop. split; f_equal.
    + exact (take_min freq' 4).
    + exact (drop_min freq' 2).
Qed.

(** X1. Whenever [analyze_numbers] returns, the labels of its table are
    distinct, the table is in descending order of count, its labels are
    exactly the numbers that were kept, and the count of each is the number
    of times it occurs among them. *)
Theorem analyze_numbers_table (d : DataFrame F) (freq : Series Z Z)
    (most_common least_common numeric_numbers : list Z) :
  fst (analyze_numbers d) = Ok (freq, most_common, least_common, numeric_numbers) ->
  NoDup (series_index freq) ∧
  StronglySorted (fun a b => snd b ≤ snd a) freq ∧
  (forall k, k ∈ series_index freq ↔ k ∈ numeric_numbers) ∧
  (forall k, tally freq k = Z.of_nat (count_occ Z.eq_dec numeric_numbers k)).
Proof.
  intros (_ & -> & _)%analyze_numbers_results.
  split; [apply sort_values_desc_NoDup, count_table_NoDup|].
  split; [apply sort_values_desc_sorted|]. split.
  - intros k. by rewrite sort_values_desc_index, count_table_index.
  - intros k. rewrite sort_values_desc_tally by apply count_table_NoDup.
    apply count_table_tally.
Qed.

(** X2. Whenever [analyze_numbers] returns, [most_common] holds the first
    four labels of the table (all of them when it has fewer) and
    [least_common] the last two; a hot number counts at least as much as any
    number of the table that is not hot, and a cold number at most as much
    as any that is not cold. *)
Theorem analyze_numbers_ranking (d : DataFrame F) (freq : Series Z Z)
    (most_common least_common numeric_numbers : list Z) :
  fst (analyze_numbers d) = Ok (freq, most_common, least_common, numeric_numbers) ->
  most_common = take 4 (series_index freq) ∧
  least_common = drop (length freq - 2) (series_index freq) ∧
  (forall x y, x ∈ most_common -> y ∈ series_index freq -> y ∉ most_common ->
               tally freq y ≤ tally freq x) ∧
  (forall x y, x ∈ least_common -> y ∈ series_index freq -> y ∉ least_common ->
               tally freq x ≤ tally freq y).
Proof.
  intros (_ & Hfreq & -> & ->)%analyze_numbers_results.
  assert (NoDup (series_index freq)) as Hnd
    by (rewrite Hfreq; apply sort_values_desc_NoDup, count_table_NoDup).
  assert (StronglySorted (fun a b => snd b ≤ snd a) freq) as Hsorted
    by (rewrite Hfreq; apply sort_values_desc_sorted).
  split; [done|]. split; [done|].
  unfold series_index at 1 3 4 6. rewrite <- !fmap_take, <- !fmap_drop. split.
  - intros a b Ha Hb Hnb.
    destruct (series_index_split freq 4 b Hb) as [Hb'|Hb']; [done|].
    by apply (ranking_split freq 4).
  - intros a b Ha Hb Hnb.
    destruct (series_index_split freq (length freq - 2) b Hb) as [Hb'|Hb']; [|done].
    by apply (ranking_split freq (length freq - 2)).
Qed.

End FrequencyTable.

(** ** Frequency Analyzer: when it raises, and what it never touches *)

Section FrequencyErrors.
Context {F : Type} `{Float F}.

Lemma numeric_numbers_of_overflow (cells : list (cell F)) :
  forallb finite_entry cells = false ->
  numeric_numbers_of (dropna cells) = Raise OverflowError.
Proof.
  induction cells as [|c cells IH]; simpl; [done|].
  intros Hc. apply andb_false_iff in Hc.
  destruct (isna c) eqn:Hna; simpl.
  - apply IH. destruct Hc as [Hc|Hc]; [|done].
    destruct c as [z|f| | |]; simpl in *; try done. by rewrite Hna in Hc.
  - destruct c as [z|f| | |]; simpl in *; try done.
    + destruct Hc as [Hc|Hc]; [done|]. rewrite (IH Hc).
      by destruct ((1 <=? z) && (z <=? 60)).
    + rewrite Hna in *. simpl in Hc. destruct (to_int f) as [z|] eqn:Ez; simpl.
      * destruct Hc as [Hc|Hc]; [by rewrite bool_decide_eq_true_2 in Hc|].
        rewrite (IH Hc). by destruct ((1 <=? z) && (z <=? 60)).
      * done.
    + apply IH. by destruct Hc.
    + apply IH. by destruct Hc.
Qed.

(** X3. [analyze_numbers] returns exactly when none of the entries it reads
    is an infinite float; when one is, it raises [OverflowError], and it
    never raises anything else: a missing column, text or a missing value
    is passed over. *)
Theorem analyze_numbers_raises (d : DataFrame F) :
  (forallb finite_entry (dezena_entries d) = true ->
   exists r, fst (analyze_numbers d) = Ok r) ∧
  (forallb finite_entry (dezena_entries d) = false ->
   fst (analyze_numbers d) = Raise OverflowError) ∧
  (forall e, fst (analyze_numbers d) = Raise e -> e = OverflowError).
Proof.
  rewrite analyze_numbers_unfold. cbn [fst].
  destruct (forallb finite_entry (dezena_entries d)) eqn:Hfin.
  - rewrite numeric_numbers_of_counted by done.
    unfold mbind, result_bind, rbind.
    repeat split; [|done|].
    + intros _. destruct (omap counted_value _); by eexists.
    + intros e. by destruct (omap counted_value _).
  - rewrite numeric_numbers_of_overflow by done.
    unfold mbind, result_bind, rbind.
    repeat split; [done|]. by intros e [= <-].
Qed.

(** X4. [analyze_numbers] and [analyze_delays] leave the frame they are
    given exactly as it was, whether they return or raise. *)
Theorem frame_analyzers_only_read (d : DataFrame F) (selected_numbers : list Z) :
  snd (analyze_numbers d) = d ∧ snd (analyze_delays selected_numbers d) = d.
Proof.
  split.
  - apply analyze_numbers_reads.
  - apply analyze_delays_reads.
Qed.

Lemma dezena_entries_no_columns (d : DataFrame F) :
  Forall (fun i => dezena i ∉ columns d) (seqZ 1 6) -> dezena_entries d = [].
Proof.
  unfold dezena_entries. generalize (seqZ 1 6). intros l Hl.
  induction Hl as [|i l Hi Hl IH]; simpl; [done|].
  by rewrite bool_decide_eq_false_2, IH.
Qed.

(** X5. On a frame that has rows but neither the column [Concurso] nor any
    of the six [Dezena] columns, [analyze_numbers] returns the empty table,
    while [analyze_delays] raises [KeyError] for [Concurso] and
    [analyze_drawing_patterns] raises [KeyError] too, the frame being left
    as it was. *)
Theorem analyzers_on_missing_columns (d : DataFrame F) (selected_numbers : list Z) :
  df_empty d = false ->
  selected_numbers ≠ [] ->
  "Concurso" ∉ columns d ->
  Forall (fun i => dezena i ∉ columns d) (seqZ 1 6) ->
  analyze_numbers d = (Ok ([], [], [], []), d) ∧
  analyze_delays selected_numbers d = (Raise (KeyError "Concurso"), d) ∧
  (exists key, analyze_drawing_patterns d = (Raise (KeyError key), d)).
Proof.
  intros Hd Hsel Hconcurso Hdezenas. repeat split.
  - rewrite analyze_numbers_unfold, dezena_entries_no_columns by done. reflexivity.
  - unfold analyze_delays, mbind, M_bind, data_empty. rewrite Hd.
    rewrite bool_decide_eq_false_2 by done. cbn [orb].
    unfold getitem, df_getitem. by rewrite bool_decide_eq_false_2.
  - unfold analyze_drawing_patterns, mbind, M_bind, data_empty. rewrite Hd.
    unfold getitems. change (seqZ 1 6) with [1; 2; 3; 4; 5; 6] in *.
    apply Forall_cons in Hdezenas as [H1 _].
    cbn [map List.find]. rewrite (bool_decide_eq_false_2 _ H1). by eexists.
Qed.

End FrequencyErrors.

(** ** Delay Analyzer: the whole table *)

Lemma containing_subseteq (n : Z) (h : list DrawRecord) (r : DrawRecord) :
  r ∈ containing n h -> r ∈ h ∧ n ∈ numbers r.
Proof.
  unfold containing. intros Hr.
  apply list_elem_of_In, filter_In in Hr as [Hr Hn]. split.
  - by apply list_elem_of_In.
  - unfold contains in Hn. by apply bool_decide_eq_true in Hn.
Qed.

Lemma containing_nonempty (n : Z) (h : list DrawRecord) (r : DrawRecord) :
  r ∈ h -> n ∈ numbers r -> containing n h ≠ [].
Proof.
  intros Hr Hn E.
  assert (r ∈ containing n h) as Hin.
  { unfold containing. apply list_elem_of_In, filter_In. split.
    - by apply list_elem_of_In.
    - unfold contains. by apply bool_decide_eq_true. }
  rewrite E in Hin. by apply elem_of_nil in Hin.
Qed.

Lemma maxDrawId_containing (n : Z) (h : list DrawRecord) :
  containing n h ≠ [] -> maxDrawId (containing n h) ≤ maxDrawId h.
Proof.
  intros Hne.
  destruct (maxDrawId_spec (containing n h) Hne) as [_ (r & Hr & <-)].
  apply containing_subseteq in Hr as [Hr _].
  assert (h ≠ []) as Hh by (intros ->; by apply elem_of_nil in Hr).
  by apply (maxDrawId_spec h Hh).
Qed.

(** The delay is [-1] for a number never drawn and is not negative otherwise. *)
Lemma expected_delay_range (n : Z) (h : list DrawRecord) :
  (containing n h = [] ∧ expected_delay n h = -1) ∨
  (containing n h ≠ [] ∧ 0 ≤ expected_delay n h).
Proof.
  unfold expected_delay. destruct (containing n h) as [|r occ] eqn:E; [by left|].
  right. split; [done|]. rewrite <- E.
  assert (containing n h ≠ []) as Hne by by rewrite E.
  pose proof (maxDrawId_containing n h Hne). lia.
Qed.

Lemma expected_delays_other (h : list DrawRecord) (selected : list Z)
    (delays : gmap Z Z) (n : Z) :
  n ∉ selected -> expected_delays h selected delays !! n = delays !! n.
Proof.
  unfold expected_delays. revert delays.
  induction selected as [|k selected IH]; intros delays Hn; simpl; [done|].
  apply not_elem_of_cons in Hn as [Hne Hn].
  rewrite IH by done. by rewrite lookup_insert_ne.
Qed.

Section DelayTable.
Context {F : Type} `{Float F}.

(** On a non-empty valid history [analyze_delays] computes the delay of
    each selected number. *)
Lemma analyze_delays_history (h : list DrawRecord) (selected : list Z) :
  Forall valid_record h -> h ≠ [] ->
  analyze_delays selected (to_frame (F:=F) h)
  = (Ok (expected_delays h selected ∅), to_frame h).
Proof.
  intros Hh Hne. unfold analyze_delays, mbind, M_bind.
  assert (data_empty (to_frame (F:=F) h) = (Ok false, to_frame h)) as ->.
  { unfold data_empty. f_equal. destruct h; [done|reflexivity]. }
  destruct selected as [|k selected]; [reflexivity|].
  rewrite bool_decide_eq_false_2 by done.
  change (false || false) with false. cbv iota beta.
  rewrite getitem_history by (apply (bool_decide_unpack _); vm_compute; exact I).
  unfold lift. rewrite series_max_history by done.
  by rewrite delays_loop_history.
Qed.


Lemma history_entries (h : list DrawRecord) :
  Forall valid_record h ->
  dropna (dezena_entries (to_frame (F:=F) h)) = map CInt (drawn_numbers h).
Proof.
  intros Hh.
  pose proof (collect_columns_entries (to_frame (F:=F) h)) as H1.
  rewrite collect_columns_history in H1 by done. by injection H1 as <-.
Qed.

(** On a valid history the numbers kept are the numbers drawn. *)
Lemma analyze_numbers_history (h : list DrawRecord) (freq : Series Z Z)
    (most_common least_common numeric_numbers : list Z) :
  Forall valid_record h ->
  fst (analyze_numbers (to_frame (F:=F) h))
  = Ok (freq, most_common, least_common, numeric_numbers) ->
  numeric_numbers = drawn_numbers h.
Proof.
  intros Hh (Hnn & _)%analyze_numbers_results.
  rewrite history_entries, numeric_numbers_of_ints in Hnn
    by (done || by apply drawn_numbers_range).
  by injection Hnn.
Qed.

Lemma drawn_numbers_containing (h : list DrawRecord) (x : Z) :
  Forall valid_record h -> x ∈ drawn_numbers h -> containing x h ≠ [].
Proof.
  intros Hh Hx. unfold drawn_numbers in Hx.
  apply list_elem_of_In, in_concat in Hx as (col & Hcol & Hx).
  apply in_map_iff in Hcol as (j & <- & Hj). apply in_seq in Hj.
  apply in_map_iff in Hx as (r & <- & Hr). apply list_elem_of_In in Hr.
  apply (containing_nonempty _ h r); [done|].
  rewrite Forall_forall in Hh. destruct (Hh r Hr) as (Hlen & _).
  unfold nth_number. destruct (numbers r !! j) as [y|] eqn:E.
  - simpl. by eapply list_elem_of_lookup_2.
  - apply lookup_ge_None in E. lia.
Qed.


End DelayTable.

(** ** Outlier Detector: the whole function *)

Lemma od_set_index {V} (k : Z) (v : V) (od : list (Z * V)) (x : Z) :
  x ∈ map fst (od_set k v od) ↔ x = k ∨ x ∈ map fst od.
Proof.
  induction od as [|[k' v'] od IH]; simpl.
  - set_solver.
  - destruct (Z.eqb_spec k k') as [->|Hne]; simpl.
    + set_solver.
    + rewrite !elem_of_cons, IH. tauto.
Qed.

Lemma od_set_NoDup {V} (k : Z) (v : V) (od : list (Z * V)) :
  NoDup (map fst od) -> NoDup (map fst (od_set k v od)).
Proof.
  induction od as [|[k' v'] od IH]; simpl.
  - intros _. apply NoDup_singleton.
  - intros [Hk' Hod]%NoDup_cons. destruct (Z.eqb_spec k k') as [->|Hne]; simpl.
    + by apply NoDup_cons.
    + apply NoDup_cons. split; [|by apply IH].
      rewrite od_set_index. intros [->|Hin]; done.
Qed.

Lemma flagged_sublist {F} `{Float F} (labels : list Z) (sigma std : F)
    (points : list (F * F)) :
  sublist (map fst (flagged labels sigma std points)) labels.
Proof.
  unfold flagged. revert points.
  induction labels as [|l labels IH]; intros [|[y_i avg_i] points]; simpl;
    try apply sublist_nil_l.
  case_if; simpl.
  - apply sublist_skip, IH.
  - apply sublist_cons, IH.
Qed.

Section Outliers.
Context {F : Type} `{Float F} `{FloatSqrt F}.

(** The loop of [explain_anomalies] keeps the keys of its dictionary
    distinct and among the labels of the frequency table. *)
Lemma anomaly_loop_keys (frequencies : Series Z Z) (sigma std : F)
    (points : list (nat * (F * F))) (anomalies : list (Z * F)) :
  NoDup (map fst anomalies) ->
  (forall x, x ∈ map fst anomalies -> x ∈ series_index frequencies) ->
  let out := fold_left (anomaly_step frequencies sigma std) points anomalies in
  NoDup (map fst out) ∧ (forall x, x ∈ map fst out -> x ∈ series_index frequencies).
Proof.
  revert anomalies.
  induction points as [|[i [y_i avg_i]] points IH]; intros anomalies Hnd Hsub; simpl.
  - done.
  - apply IH.
    + unfold anomaly_step. repeat case_if; try done.
      destruct (series_index frequencies !! i); [by apply od_set_NoDup|done].
    + intros x. unfold anomaly_step. repeat case_if; try apply Hsub.
      destruct (series_index frequencies !! i) as [label|] eqn:E; [|apply Hsub].
      rewrite od_set_index. intros [->|Hx]; [|by apply Hsub].
      by eapply list_elem_of_lookup_2.
Qed.

(** X8. [analyze_outliers] returns on every frequency table, never raising:
    the window it computes is never longer than the table, and the moving
    average it takes has the length of the table.  The outliers it reports
    are distinct labels of the table. *)
Theorem analyze_outliers_total (frequencies : Series Z Z) :
  exists outliers std,
    analyze_outliers (F:=F) frequencies = Ok (outliers, std) ∧
    NoDup outliers ∧
    (forall k, k ∈ outliers -> k ∈ series_index frequencies).
Proof.
  destruct (default_window_size_le frequencies) as [Hw| ->].
  - unfold analyze_outliers. destruct frequencies as [|p l].
    + exists [], (of_int 0). repeat split; [constructor|].
      intros k Hk. by apply elem_of_nil in Hk.
    + set (f := p :: l) in *.
      assert (length (map (of_int (F:=F)) (series_values f)) = length f) as Hlen
        by (unfold series_values; by rewrite !length_map).
      rewrite explain_anomalies_unfold by (rewrite Hlen; exact Hw).
      set (y := map of_int (series_values f)).
      set (avg := centered_average y (default_window_size f)).
      set (std := np_std (zip_with fsub y avg)).
      destruct (anomaly_loop_keys f sigma_value std
                  (zip (seq 0 (length (zip y avg))) (zip y avg)) []) as [Hnd Hsub].
      { constructor. }
      { intros x Hx. by apply elem_of_nil in Hx. }
      eexists _, _. split; [reflexivity|]. split; [exact Hnd|exact Hsub].
  - exists [], (of_int 0). repeat split; [constructor|].
    intros k Hk. by apply elem_of_nil in Hk.
Qed.


(** X10. The three cases of [moving_average]: a window that is not
    positive gives as many zeros as there are data; with a positive
    window, no data makes [np.convolve] raise [ValueError], and otherwise
    the result is as long as the longer of the data and the window. *)
Theorem moving_average_shape (data : list F) (window_size : Z) :
  (window_size ≤ 0 ->
   moving_average data window_size = Ok (replicate (length data) (of_int 0))) ∧
  (0 < window_size -> data = [] ->
   moving_average data window_size = Raise ValueError) ∧
  (0 < window_size -> data ≠ [] ->
   exists r, moving_average data window_size = Ok r ∧
             length r = Nat.max (length data) (Z.to_nat window_size)).
Proof.
  unfold moving_average. destruct (Z.leb_spec window_size 0) as [Hle|Hpos].
  - split; [|split; intros; lia].
    intros _. unfold np_zeros_like. by rewrite map_const_replicate.
  - split; [intros; lia|]. unfold np_ones.
    destruct (Z.to_nat window_size) as [|w] eqn:Ew; [lia|].
    split; [by intros _ ->|]. intros _ Hne.
    destruct data as [|x data]; [done|].
    unfold np_convolve_same. cbn [replicate map].
    set (a := x :: data). set (v := _ :: map _ (replicate w _)).
    assert (length v = S w) as Hv
      by (unfold v; simpl; by rewrite length_map, length_replicate).
    destruct (Nat.ltb_spec (length a) (length v)) as [Hlt|Hge];
      (eexists; split; [reflexivity|]); rewrite length_map, length_seq; lia.
Qed.

End Outliers.

(** ** Probability Calculator, in any arithmetic *)

Section ProbabilityShape.
Context {F : Type} `{Float F}.



End ProbabilityShape.

(** ** Suggestion Engine: every input *)

Lemma add_most_common_mono (most_common : list Z) (n : Z) (s : gset Z) :
  s ⊆ add_most_common most_common n s
  ∧ add_most_common most_common n s ⊆ s ∪ list_to_set most_common
  ∧ (len s ≤ n -> len (add_most_common most_common n s) ≤ n).
Proof.
  revert s. induction most_common as [|x l IH]; intros s; simpl.
  - split; [done|]. split; [set_solver|done].
  - destruct (Z.ltb_spec (len s) n) as [Hlt|Hge].
    + destruct (IH ({[x]} ∪ s)) as (H1 & H2 & H3).
      split; [set_solver|]. split; [set_solver|].
      intros _. apply H3. pose proof (len_insert_le x s). lia.
    + split; [done|]. split; [set_solver|done].
Qed.

Lemma add_least_common_mono (least_common : list Z) (n : Z) (s : gset Z) :
  s ⊆ add_least_common least_common n s
  ∧ add_least_common least_common n s ⊆ s ∪ list_to_set least_common
  ∧ (len s ≤ n -> len (add_least_common least_common n s) ≤ n).
Proof.
  revert s. induction least_common as [|x l IH]; intros s; simpl.
  - split; [done|]. split; [set_solver|done].
  - destruct ((len s <? n) && negb (bool_decide (x ∈ s))) eqn:E.
    + apply andb_true_iff in E as [Hlt%Z.ltb_lt _].
      destruct (IH ({[x]} ∪ s)) as (H1 & H2 & H3).
      split; [set_solver|]. split; [set_solver|].
      intros _. apply H3. pose proof (len_insert_le x s). lia.
    + split; [done|]. split; [set_solver|done].
Qed.

Lemma fill_random_mono (available : list Z) (n : Z) (s : gset Z) :
  s ⊆ fill_random available n s.
Proof.
  revert s. induction available as [|x l IH]; intros s; simpl; [done|].
  destruct (len s <? n); [|done]. etrans; [|apply IH]. set_solver.
Qed.

(** A [while] loop that stops short of the size asked for has used up all
    the available numbers. *)
Lemma fill_random_exhausts (available : list Z) (n : Z) (s : gset Z) :
  len (fill_random available n s) < n ->
  list_to_set available ⊆ fill_random available n s.
Proof.
  revert s. induction available as [|x l IH]; intros s; simpl; [set_solver|].
  destruct (Z.ltb_spec (len s) n) as [Hlt|Hge]; [|lia].
  intros Hshort. pose proof (IH _ Hshort).
  pose proof (fill_random_mono l n ({[x]} ∪ s)). set_solver.
Qed.

Lemma available_length_ge (s : gset Z) :
  60 - len s ≤ Z.of_nat (length (elements (all_possible_numbers ∖ s))).
Proof.
  change (60 - len s ≤ Z.of_nat (size (all_possible_numbers ∖ s))).
  pose proof (size_union_alt s all_possible_numbers) as Hu.
  assert (size all_possible_numbers ≤ size (s ∪ all_possible_numbers))%nat as Hle
    by (apply subseteq_size; set_solver).
  rewrite size_all_possible_numbers in Hle. unfold len. lia.
Qed.

Lemma sorted_sorted (l : list Z) : sorted (sorted l) = sorted l.
Proof.
  unfold sorted. apply Sorted_stable_sort_id, stable_sort_Sorted.
  intros x y Hxy. apply Z.leb_le. apply Z.leb_gt in Hxy. lia.
Qed.

(** The run of [suggest_numbers] for a size that is not negative: the
    result is the set built by the three loops, in ascending order. *)
Lemma suggest_numbers_run (most_common least_common : list Z) (n : Z) (g : Rng) :
  0 ≤ n ->
  let s2 := add_least_common least_common n (add_most_common most_common n ∅) in
  let s3 := fill_random (shuffle (elements (all_possible_numbers ∖ s2)) g).1 n s2 in
  (exists g', suggest_numbers most_common least_common n g
              = (Ok (sorted (elements s3)), g'))
  ∧ s2 ⊆ s3
  ∧ s3 ⊆ all_possible_numbers ∪ list_to_set most_common ∪ list_to_set least_common
  ∧ len s3 ≤ n
  ∧ (n ≤ 60 -> len s3 = n).
Proof.
  intros Hn s2 s3.
  destruct (add_most_common_mono most_common n ∅) as (_ & Hsub1 & Hlen1).
  destruct (add_least_common_mono least_common n (add_most_common most_common n ∅))
    as (_ & Hsub2 & Hlen2).
  assert (len s2 ≤ n) as Hlen_s2.
  { apply Hlen2, Hlen1. unfold len. rewrite size_empty. lia. }
  pose proof (shuffle_perm (elements (all_possible_numbers ∖ s2)) g) as Hperm.
  assert (len s3 = Z.min n (len s2 + Z.of_nat (length (elements (all_possible_numbers ∖ s2)))))
    as Hlen_s3.
  { unfold s3. rewrite fill_random_len.
    - by rewrite Hperm.
    - rewrite Hperm. apply NoDup_elements.
    - intros x Hx. rewrite Hperm in Hx. apply elem_of_elements in Hx. set_solver.
    - done. }
  pose proof (available_length_ge s2) as Havail.
  assert (s3 ⊆ all_possible_numbers ∪ list_to_set most_common ∪ list_to_set least_common)
    as Hsub3.
  { unfold s3. etrans; [apply fill_random_subseteq|].
    intros x [Hx|Hx]%elem_of_union.
    - fold s2 in Hsub2. set_solver.
    - apply elem_of_list_to_set in Hx. rewrite Hperm in Hx.
      apply elem_of_elements in Hx. set_solver. }
  assert (Z.of_nat (length (sorted (elements s3))) = len s3) as Hlen
    by by rewrite (sorted_perm (elements s3)).
  split; [|split; [apply fill_random_mono|split; [done|split; lia]]].
  unfold suggest_numbers. fold s2.
  destruct (shuffle (elements (all_possible_numbers ∖ s2)) g) as [available g1] eqn:Es.
  change (fill_random available n s2) with s3. rewrite Hlen.
  replace (n <? len s3) with false by (symmetry; apply Z.ltb_ge; lia).
  destruct (Z.ltb_spec (len s3) n) as [Hshort|_]; [|by eexists].
  assert (elements (all_possible_numbers ∖ s3) = []) as ->.
  { assert (all_possible_numbers ∖ s3 = ∅) as ->; [|apply elements_empty].
    pose proof (fill_random_exhausts available n s2 Hshort) as Hall.
    pose proof (fill_random_mono available n s2) as Hmono.
    apply set_eq. intros x. split; [|set_solver].
    intros [Hx Hnx]%elem_of_difference. exfalso. apply Hnx.
    destruct (decide (x ∈ s2)) as [Hs|Hs]; [by apply Hmono|].
    apply Hall, elem_of_list_to_set. simpl in Hperm. rewrite Hperm.
    apply elem_of_elements. set_solver. }
  rewrite shuffle_nil. simpl length.
  replace (Z.min (n - len s3) (Z.of_nat 0)) with 0 by lia.
  rewrite sample_nil_zero. simpl. rewrite app_nil_r, sorted_sorted. by eexists.
Qed.

(** X13. [suggest_numbers] on any two lists, for a size that is not
    negative: it returns, whatever the random source, distinct integers in
    ascending order, each of them in [1,60] or taken from the two lists;
    never more than asked for, and exactly as many when the size is at most
    60.  The branch that draws a [random.sample] of a ticket that came out
    too long is never taken. *)
Theorem suggest_numbers_any_lists (most_common least_common : list Z) (n : Z) (g : Rng) :
  0 ≤ n ->
  exists l g',
    suggest_numbers most_common least_common n g = (Ok l, g') ∧
    NoDup l ∧ Sorted Z.le l ∧
    (forall x, x ∈ l -> 1 ≤ x ≤ 60 ∨ x ∈ most_common ∨ x ∈ least_common) ∧
    Z.of_nat (length l) ≤ n ∧
    (n ≤ 60 -> Z.of_nat (length l) = n).
Proof.
  intros Hn.
  destruct (suggest_numbers_run most_common least_common n g Hn)
    as ([g' Hrun] & _ & Hsub & Hlen & Hfull).
  set (s3 := fill_random _ n _) in *.
  pose proof (sorted_perm (elements s3)) as Hp.
  exists (sorted (elements s3)), g'. split; [done|]. repeat split.
  - rewrite Hp. apply NoDup_elements.
  - apply sorted_Sorted.
  - intros x Hx. rewrite Hp in Hx. apply elem_of_elements, Hsub in Hx.
    rewrite !elem_of_union, elem_of_all_possible_numbers, !elem_of_list_to_set in Hx.
    tauto.
  - rewrite Hp. exact Hlen.
  - intros Hle. rewrite Hp. by apply Hfull.
Qed.

(** X14. A negative size makes [suggest_numbers] raise [ValueError]: no
    loop adds a number, and [random.sample] is asked for a negative number
    of elements of the empty ticket. *)
Theorem suggest_numbers_negative (most_common least_common : list Z) (n : Z) (g : Rng) :
  n < 0 ->
  exists g', suggest_numbers most_common least_common n g = (Raise ValueError, g').
Proof.
  intros Hn.
  assert (forall l, add_most_common l n ∅ = ∅) as Hmc.
  { intros [|x l]; simpl; [done|].
    replace (len ∅ <? n) with false; [done|].
    symmetry. apply Z.ltb_ge. unfold len. rewrite size_empty. lia. }
  assert (forall l, add_least_common l n ∅ = ∅) as Hlc.
  { intros [|x l]; simpl; [done|].
    replace (len ∅ <? n) with false; [done|].
    symmetry. apply Z.ltb_ge. unfold len. rewrite size_empty. lia. }
  assert (forall l, fill_random l n ∅ = ∅) as Hfill.
  { intros [|x l]; simpl; [done|].
    replace (len ∅ <? n) with false; [done|].
    symmetry. apply Z.ltb_ge. unfold len. rewrite size_empty. lia. }
  unfold suggest_numbers. rewrite Hmc, Hlc.
  destruct (shuffle _ g) as [available g1]. rewrite Hfill, elements_empty.
  change (sorted []) with (@nil Z). simpl length.
  replace (n <? Z.of_nat 0) with true by (symmetry; apply Z.ltb_lt; lia).
  unfold sample. replace (n <? 0) with true by (symmetry; apply Z.ltb_lt; lia).
  simpl. by eexists.
Qed.

Lemma add_most_common_all (most_common : list Z) (n : Z) (s : gset Z) :
  len s + Z.of_nat (length most_common) ≤ n ->
  add_most_common most_common n s = list_to_set most_common ∪ s.
Proof.
  revert s. induction most_common as [|x l IH]; intros s; simpl; [set_solver|].
  intros Hlen. replace (len s <? n) with true by (symmetry; apply Z.ltb_lt; lia).
  rewrite IH; [set_solver|]. pose proof (len_insert_le x s). lia.
Qed.

Lemma add_least_common_all (least_common : list Z) (n : Z) (s : gset Z) :
  NoDup least_common -> (forall x, x ∈ least_common -> x ∉ s) ->
  len s + Z.of_nat (length least_common) ≤ n ->
  add_least_common least_common n s = list_to_set least_common ∪ s.
Proof.
  intros Hnd. revert s. induction Hnd as [|x l Hx Hnd IH]; intros s Hdisj; simpl;
    [set_solver|].
  intros Hlen. replace (len s <? n) with true by (symmetry; apply Z.ltb_lt; lia).
  rewrite bool_decide_eq_false_2 by (apply Hdisj; left). simpl.
  rewrite IH; [set_solver| |].
  - intros y Hy. pose proof (Hdisj y). set_solver.
  - pose proof (len_insert_le x s). lia.
Qed.

Lemma len_list_to_set_le (l : list Z) : len (list_to_set l) ≤ Z.of_nat (length l).
Proof.
  induction l as [|x l IH]; simpl.
  - unfold len. rewrite size_empty. lia.
  - pose proof (len_insert_le x (list_to_set l)). lia.
Qed.

(** X15. When the hot numbers fit in the ticket, all of them are on it;
    when the cold numbers, distinct and none of them hot, fit beside them,
    they are on it too. *)
Theorem suggest_numbers_keeps_selection (most_common least_common : list Z) (n : Z)
    (g : Rng) :
  Z.of_nat (length most_common) ≤ n ->
  exists l g',
    suggest_numbers most_common least_common n g = (Ok l, g') ∧
    (forall x, x ∈ most_common -> x ∈ l) ∧
    (NoDup least_common -> (forall x, x ∈ least_common -> x ∉ most_common) ->
     Z.of_nat (length most_common) + Z.of_nat (length least_common) ≤ n ->
     forall x, x ∈ least_common -> x ∈ l).
Proof.
  intros Hfit.
  assert (0 ≤ n) as Hn by lia.
  destruct (suggest_numbers_run most_common least_common n g Hn)
    as ([g' Hrun] & Hsub & _).
  set (s3 := fill_random _ n _) in *.
  pose proof (sorted_perm (elements s3)) as Hp.
  pose proof (add_most_common_all most_common n ∅) as Hmc.
  rewrite Hmc in Hsub by (unfold len; rewrite size_empty; lia).
  exists (sorted (elements s3)), g'. split; [done|]. split.
  - intros x Hx. rewrite Hp. apply elem_of_elements, Hsub.
    apply add_least_common_mono. set_solver.
  - intros Hnd Hdisj Hboth x Hx. rewrite Hp. apply elem_of_elements, Hsub.
    rewrite add_least_common_all; [set_solver|done| |].
    + intros y Hy. pose proof (Hdisj y Hy). set_solver.
    + assert (len (list_to_set most_common ∪ ∅) ≤ Z.of_nat (length most_common));
        [|lia].
      rewrite (right_id_L ∅ (∪)). apply len_list_to_set_le.
Qed.

(** ** The analysis and the first suggestion, chained *)

Lemma numbers_drawn (h : list DrawRecord) (r : DrawRecord) (x : Z) :
  r ∈ h -> length (numbers r) = 6%nat -> x ∈ numbers r -> x ∈ drawn_numbers h.
Proof.
  intros Hr Hlen Hx.
  apply list_elem_of_lookup_1 in Hx as [j Hj].
  assert (j < 6)%nat as Hlt by (rewrite <- Hlen; by eapply lookup_lt_Some).
  unfold drawn_numbers. apply list_elem_of_In, in_concat.
  exists (map (nth_number j) h). split.
  - apply in_map_iff. exists j. split; [done|]. apply in_seq. lia.
  - apply in_map_iff. exists r. split; [|by apply list_elem_of_In].
    unfold nth_number. by rewrite Hj.
Qed.

Section MainChain.
Context {F : Type} `{Float F}.

(** On a non-empty valid history [analyze_numbers] returns, with the
    numbers drawn for its last result. *)
Lemma analyze_numbers_history_run (h : list DrawRecord) :
  Forall valid_record h -> h ≠ [] ->
  exists freq most_common least_common,
    analyze_numbers (to_frame (F:=F) h)
    = (Ok (freq, most_common, least_common, drawn_numbers h), to_frame h).
Proof.
  intros Hh Hne. rewrite analyze_numbers_unfold, history_entries by done.
  rewrite numeric_numbers_of_ints by by apply drawn_numbers_range.
  pose proof (drawn_numbers_length h) as Hlen.
  destruct (drawn_numbers h) as [|x l] eqn:E.
  - destruct h; [done|]. simpl in Hlen. lia.
  - by eexists _, _, _.
Qed.

(** The frequency table of a non-empty valid history has at least six
    labels. *)
Lemma history_table_length (h : list DrawRecord) :
  Forall valid_record h -> h ≠ [] ->
  (6 ≤ length (series_index (sort_values_desc (count_table (drawn_numbers h)))))%nat.
Proof.
  intros Hh Hne. destruct h as [|r h]; [done|].
  apply Forall_cons in Hh as [(Hlen & Hnd & _) _].
  rewrite <- Hlen. apply submseteq_length, NoDup_submseteq; [done|].
  intros x Hx. apply sort_values_desc_index, count_table_index.
  apply (numbers_drawn _ r); [left|done|done].
Qed.

(** X16. What [main] does after a fetch, on a non-empty valid history and
    for a ticket of six numbers or more: the analysis returns four hot and
    two cold numbers, all six different, the suggestion returns, and all six
    are on the ticket.  The frame is left as it was. *)
Theorem analyze_and_suggest_keeps_hot_and_cold (h : list DrawRecord) (n : Z) (g : Rng) :
  Forall valid_record h -> h ≠ [] -> 6 ≤ n ->
  exists freqs most_common least_common suggested_game g',
    analyze_and_suggest n g (to_frame (F:=F) h)
    = (Ok (freqs, most_common, least_common, suggested_game, g'), to_frame h) ∧
    length most_common = 4%nat ∧ length least_common = 2%nat ∧
    NoDup (most_common ++ least_common) ∧
    (forall x, x ∈ most_common ++ least_common -> x ∈ suggested_game).
Proof.
  intros Hh Hne Hn.
  destruct (analyze_numbers_history_run h Hh Hne) as (freq & mc & lc & Hrun).
  pose proof (f_equal fst Hrun) as Hfst. simpl in Hfst.
  apply analyze_numbers_results in Hfst as (_ & Hfreq & Hmc & Hlc).
  pose proof (history_table_length h Hh Hne) as Hsix. rewrite <- Hfreq in Hsix.
  assert (NoDup (series_index freq)) as Hnd
    by (rewrite Hfreq; apply sort_values_desc_NoDup, count_table_NoDup).
  assert (length freq = length (series_index freq)) as Hlen
    by (unfold series_index; by rewrite length_map).
  assert (length mc = 4%nat) as Hmc4 by (rewrite Hmc, length_take; lia).
  assert (length lc = 2%nat) as Hlc2 by (rewrite Hlc, length_drop; lia).
  assert (NoDup (mc ++ lc)) as Hboth.
  { eapply sublist_NoDup; [exact Hnd|]. rewrite Hmc, Hlc.
    assert (take 4 (series_index freq) ++ drop (length freq - 2) (series_index freq)
            `sublist_of` take 4 (series_index freq) ++ drop 4 (series_index freq)) as Hs.
    { apply sublist_app; [done|].
      replace (length freq - 2)%nat with (4 + (length freq - 6))%nat by lia.
      rewrite <- drop_drop. apply sublist_drop. }
    by rewrite take_drop in Hs. }
  apply NoDup_app in Hboth as Hparts. destruct Hparts as (_ & Hdisj & Hndlc).
  assert (0 ≤ n) as Hn0 by lia.
  destruct (suggest_numbers_run mc lc n g Hn0) as ([g' Hsug] & Hsub & _).
  set (s3 := fill_random _ n _) in *.
  rewrite add_most_common_all in Hsub by (unfold len; rewrite size_empty; lia).
  rewrite add_least_common_all in Hsub.
  - unfold analyze_and_suggest, mbind, M_bind. rewrite Hrun, Hsug.
    eexists _, _, _, _, _. split; [reflexivity|].
    repeat split; try done.
    intros x Hx. rewrite (sorted_perm (elements s3)).
    apply elem_of_elements, Hsub. apply elem_of_app in Hx. set_solver.
  - done.
  - intros x Hx Hin. apply elem_of_union in Hin as [Hin|Hin]; [|set_solver].
    apply elem_of_list_to_set in Hin. by apply (Hdisj x).
  - pose proof (len_list_to_set_le mc) as Hle.
    rewrite (right_id_L ∅ (∪)). lia.
Qed.

End MainChain.

(** ** Frequency chart *)

Lemma tally_cons (k0 c0 : Z) (s : Series Z Z) (k : Z) :
  tally ((k0, c0) :: s) k = if k0 =? k then c0 else tally s k.
Proof. unfold tally, series_get. simpl. by destruct (k0 =? k). Qed.

Lemma tally_absent (s : Series Z Z) (k : Z) : k ∉ series_index s -> tally s k = 0.
Proof. intros Hk. unfold tally. by rewrite (proj2 (series_get_None s k) Hk). Qed.

(** A table built over a list of labels gives each of them its value. *)
Lemma tally_tabulate (f : Z -> Z) (labels : list Z) (k : Z) :
  tally (map (fun k => (k, f k)) labels) k = if bool_decide (k ∈ labels) then f k else 0.
Proof.
  induction labels as [|x labels IH]; [done|].
  rewrite map_cons, tally_cons, IH.
  destruct (Z.eqb_spec x k) as [->|Hne].
  - rewrite bool_decide_eq_true_2; [done|left].
  - destruct (decide (k ∈ labels)) as [Hin|Hin].
    + rewrite !bool_decide_eq_true_2; [done|by right|done].
    + rewrite !bool_decide_eq_false_2; [done| |done].
      intros [?|?]%elem_of_cons; [by subst|done].
Qed.

Lemma sum_single (labels : list Z) (k0 c0 : Z) :
  NoDup labels -> k0 ∈ labels ->
  foldr Z.add 0 (map (fun k => if k0 =? k then c0 else 0) labels) = c0.
Proof.
  induction 1 as [|x labels Hx Hnd IH]; intros Hin; [by apply elem_of_nil in Hin|].
  simpl. destruct (Z.eqb_spec k0 x) as [->|Hne].
  - assert (foldr Z.add 0 (map (fun k => if x =? k then c0 else 0) labels) = 0) as ->; [|lia].
    clear IH Hin Hnd. induction labels as [|y labels IH]; [done|]. simpl.
    apply not_elem_of_cons in Hx as [Hxy Hx].
    destruct (Z.eqb_spec x y); [done|]. by rewrite IH.
  - apply elem_of_cons in Hin as [?|Hin]; [done|]. by rewrite IH.
Qed.

(** Reading a table with distinct labels at every label of a list that has
    them all, once each, adds up to the sum of the table. *)
Lemma sum_tally (labels : list Z) (s : Series Z Z) :
  NoDup labels -> NoDup (series_index s) ->
  (forall k, k ∈ series_index s -> k ∈ labels) ->
  foldr Z.add 0 (map (tally s) labels) = series_sum s.
Proof.
  intros Hl. induction s as [|[k0 c0] s IH]; intros Hnd Hsub.
  - unfold series_sum. simpl. clear Hl Hsub.
    induction labels as [|x labels IH]; [done|]. simpl. by rewrite IH.
  - apply NoDup_cons in Hnd as [Hk0 Hnd].
    change (series_sum ((k0, c0) :: s)) with (c0 + series_sum s).
    rewrite <- IH by (done || (intros k Hk; apply Hsub; by right)).
    rewrite <- (sum_single labels k0 c0 Hl) at 2 by (apply Hsub; left).
    clear IH Hsub Hl. induction labels as [|x labels IH]; [done|].
    simpl. rewrite IH, tally_cons.
    destruct (Z.eqb_spec k0 x) as [->|Hne]; [|lia].
    rewrite (tally_absent s x Hk0). lia.
Qed.

Lemma series_sum_tabulate (f : Z -> Z) (labels : list Z) :
  series_sum (map (fun k => (k, f k)) labels) = foldr Z.add 0 (map f labels).
Proof. unfold series_sum, series_values. by rewrite map_map. Qed.

(** X17. [plot_frequencies] by cases.  An empty table draws nothing; a
    table in which a label is repeated makes [update] raise [ValueError];
    any other table gives sixty bars, labelled 1 to 60 in this order, the
    bar of a number as high as its count in the table and of height 0 when
    the table does not have it; and when all the labels of the table are in
    [1,60] the bars add up to the sum of the table. *)
Theorem plot_frequencies_cases (frequencies : Series Z Z) :
  match frequencies with
  | [] => plot_frequencies frequencies = Ok None
  | _ =>
      if bool_decide (NoDup (series_index frequencies)) then
        exists bars,
          plot_frequencies frequencies = Ok (Some bars) ∧
          series_index bars = seqZ 1 60 ∧
          (forall k, tally bars k = if bool_decide (1 ≤ k ≤ 60) then tally frequencies k else 0) ∧
          ((forall k, k ∈ series_index frequencies -> 1 ≤ k ≤ 60) ->
           series_sum bars = series_sum frequencies)
      else plot_frequencies frequencies = Raise ValueError
  end.
Proof.
  destruct frequencies as [|p l]; [done|]. set (f := p :: l).
  unfold plot_frequencies, full_range_freq. fold f.
  destruct (decide (NoDup (series_index f))) as [Hnd|Hnd].
  - rewrite !bool_decide_eq_true_2 by done.
    eexists. split; [reflexivity|]. fold (tally f).
    split; [|split].
    + unfold series_index. rewrite map_map. apply map_id.
    + intros k. rewrite (tally_tabulate (tally f)).
      rewrite (bool_decide_ext (k ∈ seqZ 1 60) (1 ≤ k ≤ 60)); [done|].
      rewrite elem_of_seqZ. lia.
    + intros Hrange. rewrite (series_sum_tabulate (tally f)).
      apply sum_tally; [apply NoDup_seqZ|done|].
      intros k Hk. apply elem_of_seqZ. pose proof (Hrange k Hk). lia.
  - by rewrite !bool_decide_eq_false_2 by done.
Qed.

Section ChartOfAnalysis.
Context {F : Type} `{Float F}.

(** X18. The chart of the table [analyze_numbers] returns: whatever the
    frame, [plot_frequencies] does not raise on it; it draws nothing when
    no number was kept, and otherwise the bar of every number is the number
    of times it occurs among the numbers kept, so that the sixty bars add up
    to how many numbers were kept. *)
Theorem plot_frequencies_of_analysis (d : DataFrame F) (freq : Series Z Z)
    (most_common least_common numeric_numbers : list Z) :
  fst (analyze_numbers d) = Ok (freq, most_common, least_common, numeric_numbers) ->
  exists chart,
    plot_frequencies freq = Ok chart ∧
    (chart = None ↔ numeric_numbers = []) ∧
    (forall bars, chart = Some bars ->
       series_index bars = seqZ 1 60 ∧
       (forall k, tally bars k = Z.of_nat (count_occ Z.eq_dec numeric_numbers k)) ∧
       series_sum bars = Z.of_nat (length numeric_numbers)).
Proof.
  intros Hrun.
  apply analyze_numbers_results in Hrun as (Hnn & Hfreq & _ & _).
  apply numeric_numbers_of_range in Hnn. rewrite Forall_forall in Hnn.
  assert (NoDup (series_index freq)) as Hnd
    by (rewrite Hfreq; apply sort_values_desc_NoDup, count_table_NoDup).
  assert (forall k, tally freq k = Z.of_nat (count_occ Z.eq_dec numeric_numbers k)) as Htally.
  { intros k. rewrite Hfreq, sort_values_desc_tally by apply count_table_NoDup.
    apply count_table_tally. }
  assert (forall k, k ∈ series_index freq -> 1 ≤ k ≤ 60) as Hrange.
  { intros k Hk. apply Hnn.
    by rewrite Hfreq, sort_values_desc_index, count_table_index in Hk. }
  assert (series_sum freq = Z.of_nat (length numeric_numbers)) as Hsum.
  { rewrite Hfreq, (series_sum_perm _ _ (sort_values_desc_perm _)).
    apply count_table_sum. }
  set (bars0 := map (fun k => (k, tally freq k)) (seqZ 1 60)).
  assert (series_index bars0 = seqZ 1 60) as Hlabels.
  { unfold bars0, series_index. rewrite map_map. apply map_id. }
  assert (forall k, tally bars0 k = Z.of_nat (count_occ Z.eq_dec numeric_numbers k)) as Hbars.
  { intros k. unfold bars0. rewrite (tally_tabulate (tally freq)).
    destruct (decide (k ∈ seqZ 1 60)) as [Hk|Hk].
    - by rewrite bool_decide_eq_true_2.
    - rewrite bool_decide_eq_false_2, <- Htally by done.
      symmetry. apply tally_absent. intros Hin. apply Hk, elem_of_seqZ.
      pose proof (Hrange k Hin). lia. }
  assert (series_sum bars0 = Z.of_nat (length numeric_numbers)) as Hheights.
  { unfold bars0. rewrite (series_sum_tabulate (tally freq)), <- Hsum.
    apply sum_tally; [apply NoDup_seqZ|done|].
    intros k Hk. apply elem_of_seqZ. pose proof (Hrange k Hk). lia. }
  assert (full_range_freq freq = Ok bars0) as Hfull.
  { unfold full_range_freq. by rewrite bool_decide_eq_true_2. }
  unfold plot_frequencies. rewrite Hfull.
  destruct freq as [|p l] eqn:E.
  - exists None. split; [done|]. split; [|done]. split; [|done]. intros _.
    destruct numeric_numbers; [done|]. unfold series_sum in Hsum.
    simpl in Hsum. lia.
  - rewrite <- E in *. exists (Some bars0). split; [reflexivity|]. split.
    + split; [done|]. intros ->. rewrite Hfreq in E.
      apply (f_equal length) in E. unfold sort_values_desc in E.
      rewrite stable_sort_length in E. done.
    + intros bars Hb. assert (bars = bars0) as -> by congruence. done.
Qed.

End ChartOfAnalysis.

(** ** Price table *)

Section PriceTable.
Context {F : Type} `{Float F}.

(** X19. The price table has a price for the ticket sizes 6 to 20 and for
    no other; the price of a ticket of [k] numbers is 5.00 times the number
    of six-number games it covers, [k] choose 6. *)
Theorem selected_price_spec (k : Z) :
  selected_price (F:=F) k
  = if bool_decide (6 ≤ k ≤ 20) then Some (of_int (5 * binomial_6 k)) else None.
Proof.
  unfold selected_price, MEGA_SENA_PRICES.
  destruct (decide (6 ≤ k ≤ 20)) as [Hk|Hk].
  - rewrite bool_decide_eq_true_2 by done.
    assert (k = 6 ∨ k = 7 ∨ k = 8 ∨ k = 9 ∨ k = 10 ∨ k = 11 ∨ k = 12 ∨ k = 13 ∨
            k = 14 ∨ k = 15 ∨ k = 16 ∨ k = 17 ∨ k = 18 ∨ k = 19 ∨ k = 20) as Hcases by lia.
    repeat (destruct Hcases as [->|Hcases]; [reflexivity|]). by subst.
  - rewrite bool_decide_eq_false_2 by done.
    apply not_elem_of_list_to_map_1. cbn [fmap list_fmap fst].
    rewrite !not_elem_of_cons. repeat split; try lia. apply not_elem_of_nil.
Qed.

End PriceTable.

(** ** Pattern Analyzer: the column it writes and the other analyzers *)

Lemma dezena_not_soma (i : Z) : dezena i ≠ "SomaDezenas".
Proof. unfold dezena. simpl. discriminate. Qed.

Lemma find_ext_Forall {A} (f g : A -> bool) (l : list A) :
  Forall (fun x => f x = g x) l -> List.find f l = List.find g l.
Proof.
  induction 1 as [|x l Hx Hl IH]; simpl; [done|]. by rewrite Hx, IH.
Qed.

Section SameBut.
Context {F : Type} `{Float F}.

Lemma M_bind_run {A B} (m : M (F:=F) A) (k : A -> M (F:=F) B) (d : DataFrame F)
    (r : result A) (d1 : DataFrame F) :
  m d = (r, d1) ->
  (m ≫= k) d = match r with Ok a => k a d1 | Raise e => (Raise e, d1) end.
Proof. intros Hm. unfold mbind, M_bind. by rewrite Hm. Qed.

Lemma same_but_refl (name : string) (d : DataFrame F) : same_but name d d.
Proof.
  split; [done|]. split; [done|]. apply Forall2_same_length_lookup_2; [done|].
  intros i r r' Hr Hr' c _. congruence.
Qed.

Lemma same_but_df_empty (name : string) (d d' : DataFrame F) :
  same_but name d d' -> df_empty d = df_empty d'.
Proof.
  intros (_ & Hcols & Hrows). unfold df_empty.
  apply Forall2_length in Hrows.
  destruct (columns d) as [|c cs], (columns d') as [|c' cs']; try done.
  - by destruct Hcols as [Hcols _]; specialize (Hcols eq_refl).
  - by destruct Hcols as [_ Hcols]; specialize (Hcols eq_refl).
  - destruct (rows d), (rows d'); done.
Qed.

Lemma same_but_column (name c : string) (rs rs' : list (Row F)) :
  Forall2 (fun r r' : Row F => forall c, c ≠ name -> r c = r' c) rs rs' ->
  c ≠ name ->
  map (fun r : Row F => r c) rs = map (fun r : Row F => r c) rs'.
Proof.
  intros Hrows Hc. induction Hrows as [|r r' rs rs' Hr Hrs IH]; simpl; [done|].
  by rewrite IH, (Hr c Hc).
Qed.

Lemma same_but_df_getitem (name c : string) (d d' : DataFrame F) :
  same_but name d d' -> c ≠ name -> df_getitem d c = df_getitem d' c.
Proof.
  intros (Hcols & _ & Hrows) Hc. unfold df_getitem.
  pose proof (same_but_column name c _ _ Hrows Hc) as Hcol.
  unfold Row in *. rewrite Hcol.
  by rewrite (bool_decide_ext _ _ (Hcols c Hc)).
Qed.

Lemma same_but_mask (name : string) (d d' : DataFrame F) (mask : list bool) :
  same_but name d d' -> same_but name (df_mask d mask) (df_mask d' mask).
Proof.
  intros (Hcols & Hnil & Hrows). split; [done|]. split; [done|].
  unfold df_mask. simpl rows. revert mask.
  induction Hrows as [|r r' rs rs' Hr Hrs IH]; intros [|b mask]; simpl;
    try constructor.
  destruct b; simpl; [constructor; [done|]|]; apply IH.
Qed.

Lemma same_but_dezena_entries (d d' : DataFrame F) :
  same_but "SomaDezenas" d d' -> dezena_entries d = dezena_entries d'.
Proof.
  intros (Hcols & _ & Hrows). unfold dezena_entries. f_equal.
  apply map_ext. intros i.
  rewrite (bool_decide_ext _ _ (Hcols (dezena i) (dezena_not_soma i))).
  pose proof (same_but_column _ _ _ _ Hrows (dezena_not_soma i)) as Hcol.
  unfold Row in *. by rewrite Hcol.
Qed.

Lemma same_but_analyze_numbers (d d' : DataFrame F) :
  same_but "SomaDezenas" d d' ->
  fst (analyze_numbers d) = fst (analyze_numbers d').
Proof.
  intros Hsame. rewrite !analyze_numbers_unfold. simpl.
  by rewrite (same_but_dezena_entries d d' Hsame).
Qed.

Lemma same_but_occurrence_mask (num : Z) (d d' : DataFrame F) :
  same_but "SomaDezenas" d d' ->
  exists r, occurrence_mask num d = (r, d) ∧ occurrence_mask num d' = (r, d').
Proof.
  intros Hsame. unfold occurrence_mask, mbind, M_bind, getitem.
  rewrite !(same_but_df_getitem "SomaDezenas" _ d d' Hsame) by done.
  repeat match goal with
         | |- context [df_getitem d' ?c] => destruct (df_getitem d' c)
         end; by eexists.
Qed.

Lemma same_but_delay_of (last_concurso : option (number F)) (delays : gmap Z Z)
    (num : Z) (d d' : DataFrame F) :
  same_but "SomaDezenas" d d' ->
  exists r, delay_of last_concurso delays num d = (r, d)
            ∧ delay_of last_concurso delays num d' = (r, d').
Proof.
  intros Hsame. unfold delay_of.
  destruct (same_but_occurrence_mask num d d' Hsame) as (r & Hd & Hd').
  rewrite (M_bind_run _ _ _ _ _ Hd), (M_bind_run _ _ _ _ _ Hd').
  destruct r as [mask|e]; [|by eexists].
  rewrite (M_bind_run (data_mask mask) _ d (Ok (df_mask d mask)) d eq_refl).
  rewrite (M_bind_run (data_mask mask) _ d' (Ok (df_mask d' mask)) d' eq_refl).
  pose proof (same_but_mask _ d d' mask Hsame) as Hmask.
  rewrite (same_but_df_empty _ _ _ Hmask).
  destruct (df_empty (df_mask d' mask)); [by eexists|]. cbn [negb].
  unfold mbind, M_bind, lift.
  rewrite (same_but_df_getitem _ "Concurso" _ _ Hmask) by done.
  destruct (df_getitem (df_mask d' mask) "Concurso") as [concurso|e]; [|by eexists].
  destruct (series_max concurso) as [last|e]; [|by eexists].
  destruct (int_of_delay _) as [k|e]; by eexists.
Qed.

Lemma same_but_delays_loop (selected : list Z) (last_concurso : option (number F))
    (delays : gmap Z Z) (d d' : DataFrame F) :
  same_but "SomaDezenas" d d' ->
  exists r, delays_loop selected last_concurso delays d = (r, d)
            ∧ delays_loop selected last_concurso delays d' = (r, d').
Proof.
  intros Hsame. revert delays.
  induction selected as [|num selected IH]; intros delays; simpl; [by eexists|].
  destruct (same_but_delay_of last_concurso delays num d d' Hsame) as (r & Hd & Hd').
  rewrite (M_bind_run _ _ _ _ _ Hd), (M_bind_run _ _ _ _ _ Hd').
  destruct r as [delays'|e]; [apply IH|by eexists].
Qed.

Lemma same_but_analyze_delays (selected : list Z) (d d' : DataFrame F) :
  same_but "SomaDezenas" d d' ->
  fst (analyze_delays selected d) = fst (analyze_delays selected d').
Proof.
  intros Hsame. unfold analyze_delays.
  rewrite (M_bind_run data_empty _ d (Ok (df_empty d)) d eq_refl).
  rewrite (M_bind_run data_empty _ d' (Ok (df_empty d')) d' eq_refl).
  rewrite (same_but_df_empty _ _ _ Hsame).
  destruct (df_empty d' || bool_decide (selected = [])); [done|].
  rewrite (M_bind_run (getitem "Concurso") _ d _ d eq_refl).
  rewrite (M_bind_run (getitem "Concurso") _ d' _ d' eq_refl).
  rewrite (same_but_df_getitem _ "Concurso" _ _ Hsame) by done.
  destruct (df_getitem d' "Concurso") as [concurso|e]; [|done].
  unfold mbind, M_bind, lift.
  destruct (series_max concurso) as [last|e]; [|done].
  by destruct (same_but_delays_loop selected last ∅ d d' Hsame) as (r & -> & ->).
Qed.

End SameBut.

Section PatternFrame.
Context {F : Type} `{Float F}.

Lemma set_cell_column (name : string) (values : list (cell F)) (rs : list (Row F)) :
  length values = length rs ->
  map (fun r : Row F => r name) (zip_with (set_cell name) values rs) = values.
Proof.
  revert rs. induction values as [|v values IH]; intros [|r rs] Hlen; simpl in *;
    try done.
  unfold set_cell at 1. rewrite String.eqb_refl. f_equal. apply IH. lia.
Qed.

Lemma set_cell_same_but (name : string) (values : list (cell F)) (rs : list (Row F)) :
  length values = length rs ->
  Forall2 (fun r r' : Row F => forall c, c ≠ name -> r c = r' c)
          rs (zip_with (set_cell name) values rs).
Proof.
  revert rs. induction values as [|v values IH]; intros [|r rs] Hlen; simpl in *;
    try done; constructor.
  - intros c Hc. unfold set_cell. by rewrite (proj2 (String.eqb_neq c name) Hc).
  - apply IH. lia.
Qed.

(** What [data[name] = values] does to a frame that has a column. *)
Lemma setitem_same_but (name : string) (values : list (cell F)) (d : DataFrame F) :
  length values = length (rows d) -> columns d ≠ [] ->
  same_but name d
    (mkDF (if bool_decide (name ∈ columns d) then columns d else columns d ++ [name])
          (zip_with (set_cell name) values (rows d))).
Proof.
  intros Hlen Hcols. split; [|split]; simpl.
  - intros c Hc. case_if; [done|]. rewrite elem_of_app. set_solver.
  - case_if; [done|]. split; [done|]. by intros [? _]%app_eq_nil.
  - by apply set_cell_same_but.
Qed.

Lemma getitems_present (names : list string) (d : DataFrame F) :
  Forall (fun name => name ∈ columns d) names ->
  getitems names d = (Ok (map (fun r : Row F => map r names) (rows d)), d).
Proof.
  intros Hcols. unfold getitems.
  destruct (List.find _ names) as [name|] eqn:E; [|done].
  apply find_some in E as [Hin Hname]. apply list_elem_of_In in Hin.
  rewrite Forall_forall in Hcols. apply Hcols in Hin.
  apply negb_true_iff, bool_decide_eq_false_1 in Hname. done.
Qed.

Lemma getitems_missing (names : list string) (d : DataFrame F) :
  ¬ Forall (fun name => name ∈ columns d) names ->
  exists name, getitems names d = (Raise (KeyError name), d).
Proof.
  intros Hcols. unfold getitems.
  destruct (List.find _ names) as [name|] eqn:E; [by eexists|].
  exfalso. apply Hcols, Forall_forall. intros name Hin.
  apply list_elem_of_In in Hin.
  pose proof (find_none _ _ E name Hin) as Hname. simpl in Hname.
  apply negb_false_iff in Hname. by apply bool_decide_eq_true_1 in Hname.
Qed.

(** The run of [analyze_drawing_patterns] once the six columns are there and
    every row has a sum: the column is written, and the results are taken
    from the frame so changed. *)
Lemma analyze_drawing_patterns_run (d : DataFrame F) (soma : list (cell F)) :
  df_empty d = false ->
  Forall (fun name => name ∈ columns d) (map dezena (seqZ 1 6)) ->
  mapR row_sum (map (fun r : Row F => map r (map dezena (seqZ 1 6))) (rows d)) = Ok soma ->
  let d1 := mkDF (if bool_decide ("SomaDezenas" ∈ columns d)
                  then columns d else columns d ++ ["SomaDezenas"])
                 (zip_with (set_cell "SomaDezenas") soma (rows d)) in
  analyze_drawing_patterns d
  = (avg_sum ← series_mean soma;
     counts ← parity_loop (rows d1) [] [];
     Ok ({["average_sum" := fround avg_sum 2]},
         list_to_map (map (fun '(k, v) => (parity_label k, v))
                          (Counter (zip counts.1 counts.2)))),
     d1).
Proof.
  intros Hempty Hcols Hsoma d1.
  pose proof (mapR_length _ _ _ Hsoma) as Hlen. rewrite length_map in Hlen.
  unfold analyze_drawing_patterns.
  rewrite (M_bind_run data_empty _ d (Ok (df_empty d)) d eq_refl), Hempty.
  pose proof (getitems_present _ d Hcols) as Hget.
  rewrite (M_bind_run _ _ _ _ _ Hget).
  assert (lift (mapR row_sum (map (fun r : Row F => map r (map dezena (seqZ 1 6))) (rows d))) d
          = (Ok soma, d)) as Hlift by (unfold lift; by rewrite Hsoma).
  rewrite (M_bind_run _ _ _ _ _ Hlift).
  assert (setitem "SomaDezenas" soma d = (Ok tt, d1)) as Hset
    by (unfold setitem; by rewrite bool_decide_eq_true_2).
  rewrite (M_bind_run _ _ _ _ _ Hset).
  assert (getitem "SomaDezenas" d1 = (Ok soma, d1)) as Hcol.
  { unfold getitem, df_getitem. rewrite bool_decide_eq_true_2.
    - unfold d1 at 1. simpl rows. by rewrite set_cell_column.
    - unfold d1. simpl. destruct (decide ("SomaDezenas" ∈ columns d)) as [Hin|Hin].
      + by rewrite bool_decide_eq_true_2.
      + rewrite bool_decide_eq_false_2 by done. apply elem_of_app. right. left. }
  rewrite (M_bind_run _ _ _ _ _ Hcol).
  unfold mbind at 1, M_bind at 1, lift at 1.
  destruct (series_mean soma) as [avg_sum|e]; [|done].
  rewrite (M_bind_run iterrows _ d1 (Ok (rows d1)) d1 eq_refl).
  unfold mbind at 1, M_bind at 1, lift at 1.
  change (Ok avg_sum ≫= ?k) with (k avg_sum). cbv beta.
  destruct (parity_loop (rows d1) [] []) as [[even_counts odd_counts]|e]; done.
Qed.

(** Whatever it returns, [analyze_drawing_patterns] leaves a frame that
    differs from the one it got in the column [SomaDezenas] at most. *)
Lemma analyze_drawing_patterns_same_but (d : DataFrame F) :
  same_but "SomaDezenas" d (snd (analyze_drawing_patterns d)).
Proof.
  destruct (df_empty d) eqn:Hempty.
  { unfold analyze_drawing_patterns.
    rewrite (M_bind_run data_empty _ d (Ok (df_empty d)) d eq_refl), Hempty.
    apply same_but_refl. }
  destruct (decide (Forall (fun name => name ∈ columns d) (map dezena (seqZ 1 6))))
    as [Hcols|Hcols].
  - destruct (mapR row_sum (map (fun r : Row F => map r (map dezena (seqZ 1 6))) (rows d)))
      as [soma|e] eqn:Hsoma.
    + rewrite (analyze_drawing_patterns_run d soma Hempty Hcols Hsoma). simpl snd.
      apply setitem_same_but.
      * apply mapR_length in Hsoma. by rewrite length_map in Hsoma.
      * intros Hnil. unfold df_empty in Hempty. by rewrite Hnil in Hempty.
    + unfold analyze_drawing_patterns.
      rewrite (M_bind_run data_empty _ d (Ok (df_empty d)) d eq_refl), Hempty.
      rewrite (M_bind_run _ _ _ _ _ (getitems_present _ d Hcols)).
      unfold mbind at 1, M_bind at 1, lift at 1. rewrite Hsoma.
      apply same_but_refl.
  - unfold analyze_drawing_patterns.
    rewrite (M_bind_run data_empty _ d (Ok (df_empty d)) d eq_refl), Hempty.
    destruct (getitems_missing _ d Hcols) as [name Hget].
    rewrite (M_bind_run _ _ _ _ _ Hget). apply same_but_refl.
Qed.

End PatternFrame.

Section PatternsAndOthers.
Context {F : Type} `{Float F}.

Lemma dezenas_not_soma : Forall (fun c => c ≠ "SomaDezenas") (map dezena (seqZ 1 6)).
Proof.
  apply Forall_forall. intros c Hc. apply list_elem_of_fmap in Hc as (i & -> & _).
  apply dezena_not_soma.
Qed.

Lemma same_but_present (name : string) (names : list string) (d d' : DataFrame F) :
  same_but name d d' -> Forall (fun c => c ≠ name) names ->
  Forall (fun c => c ∈ columns d) names -> Forall (fun c => c ∈ columns d') names.
Proof.
  intros (Hcols & _) Hnames Hd. rewrite Forall_forall in *.
  intros c Hc. by apply Hcols; [apply Hnames|apply Hd].
Qed.

Lemma same_but_rows (name : string) (names : list string) (rs rs' : list (Row F)) :
  Forall2 (fun r r' : Row F => forall c, c ≠ name -> r c = r' c) rs rs' ->
  Forall (fun c => c ≠ name) names ->
  map (fun r : Row F => map r names) rs = map (fun r : Row F => map r names) rs'.
Proof.
  intros Hrows Hnames. induction Hrows as [|r r' rs rs' Hr Hrs IH]; simpl; [done|].
  rewrite IH. f_equal. apply map_ext_Forall.
  eapply Forall_impl; [exact Hnames|]. intros c Hc. by apply Hr.
Qed.

Lemma same_but_getitems (name : string) (names : list string) (d d' : DataFrame F) :
  same_but name d d' -> Forall (fun c => c ≠ name) names ->
  exists r, getitems names d = (r, d) ∧ getitems names d' = (r, d').
Proof.
  intros Hsame Hnames. pose proof Hsame as (Hcols & _ & Hrows). unfold getitems.
  rewrite (find_ext_Forall (fun c => negb (bool_decide (c ∈ columns d)))
                           (fun c => negb (bool_decide (c ∈ columns d'))) names).
  - destruct (List.find _ names); [by eexists|].
    pose proof (same_but_rows name names _ _ Hrows Hnames) as Hdez.
    unfold Row in *. rewrite Hdez. by eexists.
  - eapply Forall_impl; [exact Hnames|]. intros c Hc. simpl.
    by rewrite (bool_decide_ext _ _ (Hcols c Hc)).
Qed.

Lemma same_but_parity_loop (rs rs' : list (Row F)) (even_counts odd_counts : list Z) :
  Forall2 (fun r r' : Row F => forall c, c ≠ "SomaDezenas" -> r c = r' c) rs rs' ->
  parity_loop rs even_counts odd_counts = parity_loop rs' even_counts odd_counts.
Proof.
  intros Hrows. revert even_counts odd_counts.
  induction Hrows as [|r r' rs rs' Hr Hrs IH]; intros even_counts odd_counts;
    cbn [parity_loop]; [done|].
  assert (map (fun i => r (dezena i)) (seqZ 1 6) = map (fun i => r' (dezena i)) (seqZ 1 6))
    as ->.
  { apply map_ext. intros i. apply Hr, dezena_not_soma. }
  destruct (even_count_of _) as [even_count|e]; simpl; [apply IH|done].
Qed.

Lemma set_cell_rows (name : string) (values : list (cell F)) (rs rs' : list (Row F)) :
  Forall2 (fun r r' : Row F => forall c, c ≠ name -> r c = r' c) rs rs' ->
  Forall2 (fun r r' : Row F => forall c, c ≠ name -> r c = r' c)
          (zip_with (set_cell name) values rs) (zip_with (set_cell name) values rs').
Proof.
  intros Hrows. revert values.
  induction Hrows as [|r r' rs rs' Hr Hrs IH]; intros [|v values]; simpl;
    try constructor; [|apply IH].
  intros c Hc. unfold set_cell. rewrite (proj2 (String.eqb_neq c name) Hc).
  by apply Hr.
Qed.

Lemma same_but_analyze_drawing_patterns (d d' : DataFrame F) :
  same_but "SomaDezenas" d d' ->
  fst (analyze_drawing_patterns d) = fst (analyze_drawing_patterns d').
Proof.
  intros Hsame.
  pose proof (same_but_df_empty _ _ _ Hsame) as Hempty.
  destruct (same_but_getitems _ (map dezena (seqZ 1 6)) d d' Hsame dezenas_not_soma)
    as (r & Hget & Hget').
  destruct (df_empty d) eqn:Hd.
  { unfold analyze_drawing_patterns.
    rewrite (M_bind_run data_empty _ d (Ok (df_empty d)) d eq_refl).
    rewrite (M_bind_run data_empty _ d' (Ok (df_empty d')) d' eq_refl).
    by rewrite <- Hempty, Hd. }
  destruct (decide (Forall (fun name => name ∈ columns d) (map dezena (seqZ 1 6))))
    as [Hcols|Hcols].
  - pose proof (same_but_present _ _ _ _ Hsame dezenas_not_soma Hcols) as Hcols'.
    pose proof Hsame as (_ & _ & Hrows).
    pose proof (same_but_rows _ _ _ _ Hrows dezenas_not_soma) as Hdez.
    destruct (mapR row_sum (map (fun r : Row F => map r (map dezena (seqZ 1 6))) (rows d)))
      as [soma|e] eqn:Hsoma.
    + rewrite (analyze_drawing_patterns_run d soma Hd Hcols Hsoma).
      rewrite Hdez in Hsoma. symmetry in Hempty.
      rewrite (analyze_drawing_patterns_run d' soma Hempty Hcols' Hsoma).
      simpl fst. simpl rows.
      by rewrite (same_but_parity_loop _ _ [] [] (set_cell_rows _ soma _ _ Hrows)).
    + unfold analyze_drawing_patterns.
      rewrite (M_bind_run data_empty _ d (Ok (df_empty d)) d eq_refl).
      rewrite (M_bind_run data_empty _ d' (Ok (df_empty d')) d' eq_refl).
      rewrite <- Hempty, Hd.
      rewrite (M_bind_run _ _ _ _ _ (getitems_present _ d Hcols)).
      rewrite (M_bind_run _ _ _ _ _ (getitems_present _ d' Hcols')).
      unfold mbind at 1 3, M_bind at 1 3, lift at 1 2.
      rewrite <- Hdez. unfold Row in *. by rewrite Hsoma.
  - unfold analyze_drawing_patterns.
    rewrite (M_bind_run data_empty _ d (Ok (df_empty d)) d eq_refl).
    rewrite (M_bind_run data_empty _ d' (Ok (df_empty d')) d' eq_refl).
    rewrite <- Hempty, Hd.
    rewrite (M_bind_run _ _ _ _ _ Hget), (M_bind_run _ _ _ _ _ Hget').
    destruct (getitems_missing _ d Hcols) as [name Hmiss].
    rewrite Hmiss in Hget. by injection Hget as <-.
Qed.

(** X20. [analyze_drawing_patterns] writes the caller's frame, but what it
    writes is out of the way of every analyzer that reads the frame: on the
    frame it leaves behind, whatever that frame was, [analyze_numbers] and
    [analyze_delays] return what they return on the original, and so does
    [analyze_drawing_patterns] itself when it is run again. *)
Theorem patterns_leave_other_analyses (d : DataFrame F) (selected_numbers : list Z) :
  let d' := snd (analyze_drawing_patterns d) in
  fst (analyze_numbers d') = fst (analyze_numbers d) ∧
  fst (analyze_delays selected_numbers d') = fst (analyze_delays selected_numbers d) ∧
  fst (analyze_drawing_patterns d') = fst (analyze_drawing_patterns d).
Proof.
  intros d'. pose proof (analyze_drawing_patterns_same_but d) as Hsame.
  fold d' in Hsame. split; [|split]; symmetry.
  - by apply same_but_analyze_numbers.
  - by apply same_but_analyze_delays.
  - by apply same_but_analyze_drawing_patterns.
Qed.

End PatternsAndOthers.

(** ** Pattern Analyzer on a valid history *)

Lemma length_filter_map {A B} (p : B -> bool) (f : A -> B) (l : list A) :
  length (List.filter p (map f l)) = length (List.filter (fun x => p (f x)) l).
Proof.
  induction l as [|x l IH]; simpl; [done|]. destruct (p (f x)); simpl; by rewrite IH.
Qed.

(** How often [k] occurs in a list of pairs. *)
Lemma counter_add_lookup (k : Z * Z) (t : list (Z * Z * Z)) :
  (list_to_map (counter_add k t) : gmap (Z * Z) Z)
  = <[k := default 0 ((list_to_map t : gmap (Z * Z) Z) !! k) + 1]> (list_to_map t).
Proof.
  induction t as [|[k' c] t IH]; simpl; [done|].
  destruct (decide (k = k')) as [->|Hne].
  - rewrite bool_decide_eq_true_2 by done. simpl.
    by rewrite lookup_insert_eq, insert_insert_eq.
  - rewrite bool_decide_eq_false_2 by done. simpl.
    rewrite IH, lookup_insert_ne by done. by apply insert_insert_ne.
Qed.

Lemma Counter_lookup (l : list (Z * Z)) (t : list (Z * Z * Z)) (k : Z * Z) :
  let n := Z.of_nat (length (List.filter (fun x => bool_decide (x = k)) l)) in
  (list_to_map (fold_left (fun t k => counter_add k t) l t) : gmap (Z * Z) Z) !! k
  = if n =? 0 then (list_to_map t : gmap (Z * Z) Z) !! k
    else Some (default 0 ((list_to_map t : gmap (Z * Z) Z) !! k) + n).
Proof.
  revert t. induction l as [|x l IH]; intros t; [done|].
  cbn [fold_left List.filter]. cbv zeta in IH. rewrite IH, counter_add_lookup.
  destruct (decide (x = k)) as [->|Hne].
  - rewrite bool_decide_eq_true_2, lookup_insert_eq by done. cbn [length default].
    generalize (length (List.filter (fun x => bool_decide (x = k)) l)). intros n.
    unfold id.
    destruct (Z.eqb_spec (Z.of_nat n) 0) as [E|E];
      destruct (Z.eqb_spec (Z.of_nat (S n)) 0); try lia; f_equal; lia.
  - rewrite bool_decide_eq_false_2, lookup_insert_ne by done. done.
Qed.

Lemma counter_add_keys (P : Z * Z -> Prop) (k : Z * Z) (t : list (Z * Z * Z)) :
  P k -> Forall P (map fst t) -> Forall P (map fst (counter_add k t)).
Proof.
  intros Hk. induction t as [|[k' c] t IH]; simpl.
  - intros _. by repeat constructor.
  - intros [Hk' Ht]%Forall_cons. case_if; simpl; constructor; auto.
Qed.

Lemma Counter_keys (P : Z * Z -> Prop) (l : list (Z * Z)) :
  Forall P l -> Forall P (map fst (Counter l)).
Proof.
  unfold Counter. intros Hl.
  assert (forall t, Forall P (map fst t) ->
            Forall P (map fst (fold_left (fun t k => counter_add k t) l t))) as Hgen.
  { induction Hl as [|x l' Hx Hl' IH]; intros t Ht; simpl; [done|].
    apply IH. by apply counter_add_keys. }
  apply Hgen. constructor.
Qed.

(** Renaming the keys of a table by a function that tells them apart. *)
Lemma labelled_lookup (P : Z * Z -> Prop) (label : Z * Z -> string)
    (t : list (Z * Z * Z)) (k : Z * Z) :
  (forall a b, P a -> P b -> label a = label b -> a = b) ->
  Forall P (map fst t) -> P k ->
  (list_to_map (map (fun '(k, v) => (label k, v)) t) : gmap string Z) !! label k
  = (list_to_map t : gmap (Z * Z) Z) !! k.
Proof.
  intros Hinj Ht Hk. induction t as [|[k' c] t IH]; simpl; [done|].
  apply Forall_cons in Ht as [Hk' Ht].
  destruct (decide (k = k')) as [->|Hne].
  - by rewrite !lookup_insert_eq.
  - rewrite !lookup_insert_ne; [by apply IH|congruence|].
    intros E. apply Hne. symmetry. by apply Hinj.
Qed.

Lemma parity_label_inj (a b : Z) :
  0 ≤ a ≤ 6 -> 0 ≤ b ≤ 6 ->
  parity_label (a, 6 - a) = parity_label (b, 6 - b) -> a = b.
Proof.
  intros Ha Hb.
  assert (a = 0 ∨ a = 1 ∨ a = 2 ∨ a = 3 ∨ a = 4 ∨ a = 5 ∨ a = 6) as Hca by lia.
  assert (b = 0 ∨ b = 1 ∨ b = 2 ∨ b = 3 ∨ b = 4 ∨ b = 5 ∨ b = 6) as Hcb by lia.
  clear Ha Hb.
  repeat (destruct Hca as [->|Hca]);
    repeat (destruct Hcb as [->|Hcb]); try subst a; try subst b;
    vm_compute; (reflexivity || discriminate).
Qed.

Lemma even_count_range (r : DrawRecord) :
  length (numbers r) = 6%nat -> 0 ≤ even_count r ≤ 6.
Proof.
  intros Hlen. unfold even_count.
  pose proof (filter_length_le Z.even (numbers r)) as Hle.
  change (base.filter Z.even (numbers r)) with (List.filter Z.even (numbers r)) in Hle.
  lia.
Qed.

Section PatternsOfHistory.
Context {F : Type} `{Float F}.

Lemma numbers_of_ints (zs : list Z) : numbers_of (F:=F) (map CInt zs) = Ok (map NInt zs).
Proof. induction zs as [|z zs IH]; simpl; [done|]. by rewrite IH. Qed.

Lemma fold_num_add_ints (zs : list Z) (a : Z) :
  fold_left (num_add (F:=F)) (map NInt zs) (NInt a) = NInt (a + foldr Z.add 0 zs).
Proof.
  revert a. induction zs as [|z zs IH]; intros a; simpl.
  - f_equal. lia.
  - rewrite IH. f_equal. lia.
Qed.

(** The six cells of a valid draw. *)
Lemma row_cells (r : DrawRecord) :
  length (numbers r) = 6%nat ->
  map (fun i => row_of (F:=F) r (dezena i)) (seqZ 1 6) = map CInt (numbers r).
Proof.
  intros Hlen. destruct r as [id dt ns]. simpl in Hlen.
  destruct ns as [|a [|b [|c [|d [|e [|f [|]]]]]]]; try discriminate Hlen.
  reflexivity.
Qed.

Lemma row_sums (h : list DrawRecord) :
  Forall valid_record h ->
  mapR (row_sum (F:=F))
       (map (fun r : Row F => map r (map dezena (seqZ 1 6))) (map row_of h))
  = Ok (map (fun r => CInt (draw_sum r)) h).
Proof.
  induction 1 as [|r h Hr Hh IH]; [done|].
  rewrite !map_cons.
  change (mapR row_sum (?x :: ?l)) with (y ← row_sum x; ys ← mapR row_sum l; Ok (y :: ys)).
  assert (row_sum (F:=F) (map (row_of r) (map dezena (seqZ 1 6))) = Ok (CInt (draw_sum r)))
    as ->.
  { destruct Hr as (Hlen & _). rewrite map_map, (row_cells r Hlen).
    unfold row_sum. rewrite numbers_of_ints.
    change (Ok ?xs ≫= ?k) with (k xs). cbv beta.
    by rewrite fold_num_add_ints. }
  change (Ok ?c ≫= ?k) with (k c). cbv beta. by rewrite IH.
Qed.

Lemma even_count_of_ints (zs : list Z) :
  even_count_of (F:=F) (map CInt zs)
  = Ok (Z.of_nat (length (List.filter Z.even zs))).
Proof.
  unfold even_count_of.
  assert (mapR (cell_even (F:=F)) (map CInt zs) = Ok (map Z.even zs)) as ->.
  { induction zs as [|z zs IH]; simpl; [done|]. by rewrite IH. }
  change (Ok ?xs ≫= ?k) with (k xs). cbv beta.
  by rewrite (length_filter_map id Z.even).
Qed.

Lemma parity_loop_history (h : list DrawRecord) (even_counts odd_counts : list Z) :
  Forall valid_record h ->
  parity_loop (F:=F) (map row_of h) even_counts odd_counts
  = Ok (even_counts ++ map even_count h,
        odd_counts ++ map (fun r => 6 - even_count r) h).
Proof.
  intros Hh. revert even_counts odd_counts.
  induction Hh as [|r h Hr Hh IH]; intros even_counts odd_counts.
  - simpl. by rewrite !app_nil_r.
  - rewrite map_cons. cbn [parity_loop]. destruct Hr as (Hlen & _).
    rewrite (row_cells r Hlen), even_count_of_ints.
    change (Ok ?c ≫= ?k) with (k c). cbv beta.
    rewrite IH, <- !app_assoc. reflexivity.
Qed.


End PatternsOfHistory.

(** ** The properties above on concrete inputs *)

Lemma analyze_numbers_table_witness :
  let freq := [(1, 2); (2, 2); (3, 2); (4, 2); (5, 2); (6, 1); (7, 1)] in
  let numeric_numbers := [1; 1; 2; 2; 3; 3; 4; 4; 5; 5; 6; 7] in
  NoDup (series_index freq) ∧
  StronglySorted (fun a b => snd b ≤ snd a) freq ∧
  (forall k, k ∈ series_index freq ↔ k ∈ numeric_numbers) ∧
  (forall k, tally freq k = Z.of_nat (count_occ Z.eq_dec numeric_numbers k)).
Proof.
  intros freq numeric_numbers.
  apply (analyze_numbers_table (F:=spec_float)
           (to_frame [mkDraw 1 0 [1; 2; 3; 4; 5; 6]; mkDraw 2 0 [1; 2; 3; 4; 5; 7]])
           freq [1; 2; 3; 4] [6; 7] numeric_numbers).
  vm_compute. reflexivity.
Defined.

Lemma analyze_numbers_ranking_witness :
  let freq := [(1, 2); (2, 2); (3, 2); (4, 2); (5, 2); (6, 1); (7, 1)] in
  let most_common := [1; 2; 3; 4] in
  let least_common := [6; 7] in
  most_common = take 4 (series_index freq) ∧
  least_common = drop (length freq - 2) (series_index freq) ∧
  (forall x y, x ∈ most_common -> y ∈ series_index freq -> y ∉ most_common ->
               tally freq y ≤ tally freq x) ∧
  (forall x y, x ∈ least_common -> y ∈ series_index freq -> y ∉ least_common ->
               tally freq x ≤ tally freq y).
Proof.
  intros freq most_common least_common.
  apply (analyze_numbers_ranking (F:=spec_float)
           (to_frame [mkDraw 1 0 [1; 2; 3; 4; 5; 6]; mkDraw 2 0 [1; 2; 3; 4; 5; 7]])
           freq most_common least_common [1; 1; 2; 2; 3; 3; 4; 4; 5; 5; 6; 7]).
  vm_compute. reflexivity.
Defined.

Lemma analyzers_on_missing_columns_witness :
  let d : DataFrame spec_float := mkDF ["Data"] [fun _ => CNone] in
  analyze_numbers d = (Ok ([], [], [], []), d) ∧
  analyze_delays [7] d = (Raise (KeyError "Concurso"), d) ∧
  (exists key, analyze_drawing_patterns d = (Raise (KeyError key), d)).
Proof.
  intros d. apply (analyzers_on_missing_columns (F:=spec_float) d [7]).
  - reflexivity.
  - done.
  - apply (bool_decide_unpack _). vm_compute. exact I.
  - apply (bool_decide_unpack _). vm_compute. exact I.
Defined.





Lemma suggest_numbers_any_lists_witness :
  exists l g',
    suggest_numbers [61; 7; 7] [0] 3 [5; 2]%nat = (Ok l, g') ∧
    NoDup l ∧ Sorted Z.le l ∧
    (forall x, x ∈ l -> 1 ≤ x ≤ 60 ∨ x ∈ [61; 7; 7] ∨ x ∈ [0]) ∧
    Z.of_nat (length l) ≤ 3 ∧
    (3 ≤ 60 -> Z.of_nat (length l) = 3).
Proof. apply (suggest_numbers_any_lists [61; 7; 7] [0] 3 [5; 2]%nat). lia. Defined.

Lemma suggest_numbers_negative_witness :
  exists g', suggest_numbers [1; 2; 3; 4] [6; 7] (-1) [3; 5]%nat = (Raise ValueError, g').
Proof. apply (suggest_numbers_negative [1; 2; 3; 4] [6; 7] (-1) [3; 5]%nat). lia. Defined.

Lemma suggest_numbers_keeps_selection_witness :
  exists l g',
    suggest_numbers [1; 2; 3; 4] [6; 7] 6 [3; 5]%nat = (Ok l, g') ∧
    (forall x, x ∈ [1; 2; 3; 4] -> x ∈ l) ∧
    (NoDup [6; 7] -> (forall x, x ∈ [6; 7] -> x ∉ [1; 2; 3; 4]) ->
     Z.of_nat (length [1; 2; 3; 4]) + Z.of_nat (length [6; 7]) ≤ 6 ->
     forall x, x ∈ [6; 7] -> x ∈ l).
Proof.
  apply (suggest_numbers_keeps_selection [1; 2; 3; 4] [6; 7] 6 [3; 5]%nat).
  simpl. lia.
Defined.

Lemma analyze_and_suggest_keeps_hot_and_cold_witness :
  let h := [mkDraw 1 0 [1; 2; 3; 4; 5; 6]; mkDraw 2 0 [1; 2; 3; 4; 5; 7]] in
  exists freqs most_common least_common suggested_game g',
    analyze_and_suggest 6 [3; 5]%nat (to_frame (F:=spec_float) h)
    = (Ok (freqs, most_common, least_common, suggested_game, g'), to_frame h) ∧
    length most_common = 4%nat ∧ length least_common = 2%nat ∧
    NoDup (most_common ++ least_common) ∧
    (forall x, x ∈ most_common ++ least_common -> x ∈ suggested_game).
Proof.
  intros h. apply (analyze_and_suggest_keeps_hot_and_cold (F:=spec_float) h 6 [3; 5]%nat).
  - repeat constructor; simpl; try lia; set_solver.
  - done.
  - lia.
Defined.

Lemma plot_frequencies_of_analysis_witness :
  let freq := [(1, 2); (2, 2); (3, 2); (4, 2); (5, 2); (6, 1); (7, 1)] in
  let numeric_numbers := [1; 1; 2; 2; 3; 3; 4; 4; 5; 5; 6; 7] in
  exists chart,
    plot_frequencies freq = Ok chart ∧
    (chart = None ↔ numeric_numbers = []) ∧
    (forall bars, chart = Some bars ->
       series_index bars = seqZ 1 60 ∧
       (forall k, tally bars k = Z.of_nat (count_occ Z.eq_dec numeric_numbers k)) ∧
       series_sum bars = Z.of_nat (length numeric_numbers)).
Proof.
  intros freq numeric_numbers.
  apply (plot_frequencies_of_analysis (F:=spec_float)
           (to_frame [mkDraw 1 0 [1; 2; 3; 4; 5; 6]; mkDraw 2 0 [1; 2; 3; 4; 5; 7]])
           freq [1; 2; 3; 4] [6; 7] numeric_numbers).
  vm_compute. reflexivity.
Defined.

